(** * GumballSound: the ATtiny13a firmware of the gumball sound capsule

    A shallow embedding of [firmware/GumballSound.c]: the busy-wait delay
    [delaySomeTime], the LED helper [blink_LEDs] and the playback sequencer
    of [main], followed by the properties of the table walk, of the LED
    toggles and of the delay loops.

    The target is avr-gcc for the ATtiny13a: [int] is 16 bits wide,
    [unsigned long] is 32 bits wide, [uint8_t]/[uint16_t]/[uint32_t] are
    what their names say.  Unsigned arithmetic wraps around; signed
    overflow is undefined and is reported as a fault. *)

From Stdlib Require Import ZArith List Lia Bool.
Import ListNotations.
Local Open Scope Z_scope.

(* ================================================================= *)
(** ** Machine integers *)

Definition wrap (w z : Z) : Z := z mod 2 ^ w.
Definition wrap8  : Z -> Z := wrap 8.
Definition wrap32 : Z -> Z := wrap 32.

Definition ULONG_MAX : Z := 2 ^ 32 - 1.
Definition INT_MAX   : Z := 2 ^ 15 - 1.

Definition is_uint8  (z : Z) : Prop := 0 <= z < 2 ^ 8.
Definition is_uint16 (z : Z) : Prop := 0 <= z < 2 ^ 16.
Definition is_ulong  (z : Z) : Prop := 0 <= z <= ULONG_MAX.

(** The binary-literal macros [HEX__], [B8__] and [B8]: the argument of
    [B8] is read as a hexadecimal number, and each nonzero hexadecimal
    digit contributes one bit. *)
Definition nibble_bit (x mask bit : Z) : Z :=
  if Z.land x mask =? 0 then 0 else bit.

Definition B8__ (x : Z) : Z :=
    nibble_bit x 0x0000000F 1
  + nibble_bit x 0x000000F0 2
  + nibble_bit x 0x00000F00 4
  + nibble_bit x 0x0000F000 8
  + nibble_bit x 0x000F0000 16
  + nibble_bit x 0x00F00000 32
  + nibble_bit x 0x0F000000 64
  + nibble_bit x 0xF0000000 128.

Definition B8 (d : Z) : Z := wrap8 (B8__ d).

(* ================================================================= *)
(** ** The busy-wait delay *)

Definition TENTH_MS : Z := 112.
Definition SAMP     : Z := 10.
Definition ONE_SEC  : Z := 10000.

(** [for (timer=0; timer <= delayCount; timer++) {PINB |= B8(00100000);}]
    The accumulator [ticks] counts the executions of the loop body. *)
Fixpoint delay_for (fuel : nat) (timer delayCount ticks : Z) : option Z :=
  match fuel with
  | O => None
  | S fuel' =>
      if timer <=? delayCount
      then delay_for fuel' (wrap32 (timer + 1)) delayCount (ticks + 1)
      else Some ticks
  end.

(** [while (units != 0) { for ...; units--; }] *)
Fixpoint delay_while (fuel ifuel : nat) (units delayCount ticks : Z)
  : option Z :=
  match fuel with
  | O => None
  | S fuel' =>
      if negb (units =? 0)
      then match delay_for ifuel 0 delayCount ticks with
           | None => None
           | Some ticks' =>
               delay_while fuel' ifuel (wrap32 (units - 1)) delayCount ticks'
           end
      else Some ticks
  end.

(** [delaySomeTime fuel units delayCount] is [Some n] when the call returns
    after [n] executions of the inner loop body, and [None] when [fuel]
    loop tests were not enough for either loop. *)
Definition delaySomeTime (fuel : nat) (units delayCount : Z) : option Z :=
  delay_while fuel fuel units delayCount 0.

(** The call returns with [t] ticks. *)
Definition delay_returns (units delayCount t : Z) : Prop :=
  exists fuel, delaySomeTime fuel units delayCount = Some t.

(* ================================================================= *)
(** ** Outcomes, events and the output registers *)

Inductive fault : Type :=
  | DivisionByZero      (* unsigned division by zero *)
  | SignedOverflow      (* overflow of a signed [int] *)
  | OutOfBounds.        (* read past the end of a table *)

Inductive outcome (A : Type) : Type :=
  | Done (a : A)
  | Timeout
  | Fault (f : fault).

Arguments Done {A} a.
Arguments Timeout {A}.
Arguments Fault {A} f.

Definition bind {A B : Type} (o : outcome A) (k : A -> outcome B)
  : outcome B :=
  match o with
  | Done a => k a
  | Timeout => Timeout
  | Fault f => Fault f
  end.

Notation "x <- o ;; k" := (bind o (fun x => k))
  (at level 61, o at next level, right associativity).
Notation "' pat <- o ;; k" :=
  (bind o (fun x => match x with pat => k end))
  (at level 61, pat pattern, o at next level, right associativity).

(** What the firmware does to the outside, in program order. *)
Inductive event : Type :=
  | RdWav   (i : Z)     (* pgm_read_byte(&gumballWavTab[i])          *)
  | RdPitch (i : Z)     (* pgm_read_byte(&pitchTab[i].gumballPitch)  *)
  | RdLen   (i : Z)     (* pgm_read_word(&pitchTab[i].pitchDuration) *)
  | WrOCR0A (v : Z)     (* OCR0A = v                                 *)
  | OrPORTB  (m : Z)    (* PORTB |= m                                *)
  | AndPORTB (m : Z)    (* PORTB &= m                                *)
  | XorPORTB (m : Z)    (* PORTB ^= m                                *)
  | Busy (ticks : Z).   (* a delaySomeTime call that returned, with
                           the PB5 toggles of its ticks              *)

Record io : Type := mkIO {
  PORTB : Z;
  OCR0A : Z;
  trace : list event
}.

Definition emit (e : event) (h : io) : io :=
  mkIO (PORTB h) (OCR0A h) (trace h ++ [e]).

Definition write_OCR0A (v : Z) (h : io) : io :=
  mkIO (PORTB h) v (trace h ++ [WrOCR0A v]).

Definition or_PORTB (m : Z) (h : io) : io :=
  mkIO (Z.lor (PORTB h) m) (OCR0A h) (trace h ++ [OrPORTB m]).

Definition and_PORTB (m : Z) (h : io) : io :=
  mkIO (Z.land (PORTB h) m) (OCR0A h) (trace h ++ [AndPORTB m]).

Definition xor_PORTB (m : Z) (h : io) : io :=
  mkIO (Z.lxor (PORTB h) m) (OCR0A h) (trace h ++ [XorPORTB m]).

(** The body of the inner loop of [delaySomeTime] is
    [PINB |= B8(00100000)]; the comment above it reads "Toggling PB5 is
    done here".  On the ATtiny13a a one written to a bit of PINB inverts
    that bit of PORTB, and avr-gcc sets a single bit of this register
    with one [sbi]: every tick of the delay toggles bit 5 of PORTB and
    leaves its other bits alone. *)
Definition DELAY_PIN : Z := B8 0x00100000.

(** PORTB after [ticks] executions of that loop body. *)
Definition delay_port (ticks p : Z) : Z :=
  Z.iter ticks (fun q => Z.lxor q DELAY_PIN) p.

(** A call of [delaySomeTime] seen from its caller: the port after the
    toggles of its ticks, and the call in the trace. *)
Definition busy (fuel : nat) (units delayCount : Z) (h : io) : outcome io :=
  match delaySomeTime fuel units delayCount with
  | None => Timeout
  | Some t =>
      Done (mkIO (delay_port t (PORTB h)) (OCR0A h) (trace h ++ [Busy t]))
  end.

(** The LED pins of PORTB. *)
Definition LED_GREEN : Z := B8 0x00000010.   (* PB1 *)
Definition LED_RED   : Z := B8 0x00000100.   (* PB2 *)
Definition LED_BLUE  : Z := B8 0x00001000.   (* PB3 *)
Definition LEDS_ON   : Z := B8 0x00001110.
Definition LEDS_OFF  : Z := B8 0x11110001.

(* ================================================================= *)
(** ** blink_LEDs *)

(** [for (int i=0; i<(duration/(onTime+offTime)); i++) { ... }]
    The sum and the quotient are [unsigned long]; [i] is converted to
    [unsigned long] for the comparison; [i++] is a signed increment. *)
Fixpoint blink_for (fuel dfuel : nat) (i duration onTime offTime : Z)
  (h : io) : outcome io :=
  match fuel with
  | O => Timeout
  | S fuel' =>
      let period := wrap32 (onTime + offTime) in
      if period =? 0 then Fault DivisionByZero
      else if wrap32 i <? duration / period then
        h1 <- Done (or_PORTB LEDS_ON h) ;;
        h2 <- busy dfuel onTime TENTH_MS h1 ;;
        h3 <- Done (and_PORTB LEDS_OFF h2) ;;
        h4 <- busy dfuel offTime TENTH_MS h3 ;;
        if i + 1 >? INT_MAX then Fault SignedOverflow
        else blink_for fuel' dfuel (i + 1) duration onTime offTime h4
      else Done h
  end.

Definition blink_LEDs (fuel : nat) (duration onTime offTime : Z) (h : io)
  : outcome io :=
  blink_for fuel fuel 0 duration onTime offTime h.

(** One period of the blink, as it shows in the trace. *)
Definition blink_period (onTime offTime : Z) : list event :=
  [ OrPORTB LEDS_ON;   Busy (onTime * (TENTH_MS + 1));
    AndPORTB LEDS_OFF; Busy (offTime * (TENTH_MS + 1)) ].

(* ================================================================= *)
(** ** The tables *)

Definition gumballWavTabSize : Z := 92.

Definition gumballWavTab : list Z :=
  [ 0x8a; 0xb1; 0x55; 0x4d; 0xb2; 0x90; 0x43; 0x8f; 0xb7; 0x4f; 0x54; 0xbd;
    0x8c; 0x35; 0x98; 0xb8; 0x3a; 0x70; 0xcb; 0x4c; 0x51; 0xd7; 0x5d; 0x47;
    0xd2; 0x69; 0x3a; 0xde; 0x54; 0x4c; 0xe4; 0x30; 0x7b; 0xcf; 0x0f; 0xc5;
    0x82; 0x2e; 0xf3; 0x13; 0xb2; 0x91; 0x2c; 0xf5; 0x01; 0xe0; 0x45; 0x83;
    0xa8; 0x2e; 0xe9; 0x05; 0xf6; 0x13; 0xd3; 0x47; 0x96; 0x80; 0x61; 0xac;
    0x3e; 0xc9; 0x26; 0xdc; 0x1d; 0xdc; 0x27; 0xc6; 0x43; 0xa8; 0x60; 0x89;
    0x83; 0x65; 0xac; 0x40; 0xc6; 0x30; 0xc2; 0x45; 0xa0; 0x74; 0x6e; 0xa5;
    0x46; 0xba; 0x4b; 0x94; 0x89; 0x56; 0xb7; 0x59 ].

Record pitchElement : Type := mkPitch {
  gumballPitch  : Z;    (* uint8_t  *)
  pitchDuration : Z     (* uint16_t *)
}.

Definition pitchTab : list pitchElement :=
  map (fun pd => mkPitch (fst pd) (snd pd))
  [ (100,  280); (150,  250); (180,  300); ( 90,  800); (120,  500);
    (200,   50); (120,  280); ( 95,  282); ( 90,  285); (180,  350);
    (150,  380); (120,  280); ( 95,  410); ( 90,  285); ( 70,  500);
    (200,   50); ( 70,  180); ( 65, 1000); ( 70,  150); ( 80,  180);
    ( 90,  285); ( 80,  270); ( 12,   50); ( 50, 2000); (200,  500);
    ( 80,  500); (100,  500); (255,  800); (100,  100); ( 96,  100);
    ( 92,  100); ( 88,  200); ( 84,  250); ( 80,  300); ( 77,  350);
    ( 74,  400); ( 71,  200); ( 68,  200); ( 65,  200); ( 62,  200);
    ( 59,  190); ( 56,  180); ( 53,  170); ( 53,  160); ( 50,  150);
    ( 48,  140); ( 46,  130); ( 44,  120); ( 42,  110); ( 40,  100);
    ( 38,  100); ( 36,  100); ( 34,  100); ( 32,  100); ( 30,  100);
    ( 28,  100); ( 26,  100); ( 24,  100); ( 22,   90); ( 20,   70);
    ( 18,   60); ( 16,   50); ( 14,   40); ( 10,  100); ( 16,   50);
    ( 20,   70); ( 36,  100); ( 50,  150); ( 62,  200); ( 71,  200);
    ( 80,  150); ( 92,  130);
    (  0,    0) ].

(** The table of the scenario with two played entries. *)
Definition demoTab : list pitchElement :=
  [ mkPitch 100 5; mkPitch 50 3; mkPitch 0 0 ].

(* ================================================================= *)
(** ** The playback sequencer of [main] *)

(** [main] first sets up Timer0 for fast PWM on OC0A and makes PB0..PB3
    outputs; these writes to DDRB, TCCR0A and TCCR0B come before the loops
    and touch none of the registers below, so the model starts at the top
    of [while (1)].  The three loops are modelled as a transition system
    over their tests: the program never returns, and a run is a number of
    transitions. *)

(** Program points of the three nested loops of [main]. *)
Inductive label : Type :=
  | AtPass               (* top of the body of [while (1)]            *)
  | AtEntry              (* the test of [while (pitchRate != 0)]      *)
  | AtSample (j : Z).    (* the test of [for (...; j<pitchLen; j++)]  *)

Record cpu : Type := mkCPU {
  pc         : label;
  gumIndex   : Z;     (* uint8_t,  index into gumballWavTab *)
  pitchIndex : Z;     (* uint8_t,  index into pitchTab      *)
  pitchRate  : Z;     (* uint8_t  *)
  pitchLen   : Z;     (* uint16_t *)
  port       : io
}.

Definition red_condition (rate : Z) : bool :=
  (Z.rem rate 50 =? 0) || (Z.rem rate 20 =? 0).

Definition green_condition (rate : Z) : bool :=
  (Z.rem rate 40 =? 0) || (Z.rem rate 10 =? 0).

(** The two [if]s executed when the waveform index is reset. *)
Definition wrap_LEDs (rate : Z) (h : io) : io :=
  let h1 := if red_condition rate then xor_PORTB LED_RED h else h in
  if green_condition rate then xor_PORTB LED_GREEN h1 else h1.

Section Sequencer.

Variable tab : list pitchElement.

(** [pitchRate = pgm_read_byte(...); pitchLen = pgm_read_word(...);] *)
Definition load_entry (i : Z) (h : io) : outcome (Z * Z * io) :=
  match nth_error tab (Z.to_nat i) with
  | None => Fault OutOfBounds
  | Some e =>
      Done (gumballPitch e, pitchDuration e,
            emit (RdLen i) (emit (RdPitch i) h))
  end.

(** [gumIndex++] on the [uint8_t] index: the value the variable holds
    from the increment to the comparison with [gumballWavTabSize] that
    follows it, in the iteration of the [for] loop that starts in [s]. *)
Definition index_after_increment (s : cpu) : Z := wrap8 (gumIndex s + 1).

(** The body of the [for] loop. *)
Definition play_sample (dfuel : nat) (s : cpu) : outcome (Z * io) :=
  match nth_error gumballWavTab (Z.to_nat (gumIndex s)) with
  | None => Fault OutOfBounds
  | Some gumWavDat =>
      h1 <- Done (write_OCR0A gumWavDat (emit (RdWav (gumIndex s)) (port s))) ;;
      h2 <- busy dfuel (pitchRate s) SAMP h1 ;;
      let g := index_after_increment s in
      if g >=? gumballWavTabSize
      then Done (0, wrap_LEDs (pitchRate s) h2)
      else Done (g, h2)
  end.

(** One transition between program points. *)
Definition step (dfuel : nat) (s : cpu) : outcome cpu :=
  match pc s with
  | AtPass =>
      '(rate, len, h) <- load_entry 0 (port s) ;;
      Done (mkCPU AtEntry 0 0 rate len h)
  | AtEntry =>
      if negb (pitchRate s =? 0)
      then Done (mkCPU (AtSample 0) (gumIndex s) (pitchIndex s)
                       (pitchRate s) (pitchLen s) (port s))
      else Done (mkCPU AtPass (gumIndex s) (pitchIndex s)
                       (pitchRate s) (pitchLen s) (port s))
  | AtSample j =>
      if j <? pitchLen s
      then
        '(g, h) <- play_sample dfuel s ;;
        Done (mkCPU (AtSample (wrap32 (j + 1))) g (pitchIndex s)
                    (pitchRate s) (pitchLen s) h)
      else
        let i := wrap8 (pitchIndex s + 1) in
        '(rate, len, h) <- load_entry i (port s) ;;
        Done (mkCPU AtEntry (gumIndex s) i rate len (xor_PORTB LED_BLUE h))
  end.

Fixpoint run (dfuel : nat) (n : nat) (s : cpu) : outcome cpu :=
  match n with
  | O => Done s
  | S n' => s' <- step dfuel s ;; run dfuel n' s'
  end.

End Sequencer.

(** The state of the registers before the first pass (the local variables
    of [main] are not initialised; they are taken as 0 here). *)
Definition power_on : cpu := mkCPU AtPass 0 0 0 0 (mkIO 0 0 []).

(* ================================================================= *)
(** ** Vocabulary of the statements *)

(** *** Projections of a trace *)

(** The values written to OCR0A, in order. *)
Definition ocr_writes (tr : list event) : list Z :=
  flat_map (fun e => match e with WrOCR0A v => [v] | _ => [] end) tr.

(** The indices of the reads of the waveform table, in order. *)
Definition wav_reads (tr : list event) : list Z :=
  flat_map (fun e => match e with RdWav i => [i] | _ => [] end) tr.

(** The indices of the reads of the pitch field of the pitch table. *)
Definition pitch_reads (tr : list event) : list Z :=
  flat_map (fun e => match e with RdPitch i => [i] | _ => [] end) tr.

(** The number of executions of [PORTB ^= m]. *)
Definition toggles (m : Z) (tr : list event) : nat :=
  length (filter (fun e => match e with XorPORTB m' => m' =? m | _ => false end)
                 tr).

(** The number of samples written to OCR0A. *)
Definition samples (tr : list event) : Z := Z.of_nat (length (ocr_writes tr)).

(** The samples and the blue toggles of a trace, in order. *)
Definition beats (tr : list event) : list event :=
  filter (fun e => match e with
                   | WrOCR0A _ => true
                   | XorPORTB m => m =? LED_BLUE
                   | _ => false
                   end) tr.

(** The position of the first event that satisfies [p]. *)
Fixpoint first_index (p : event -> bool) (tr : list event) : option nat :=
  match tr with
  | [] => None
  | e :: tr' => if p e then Some 0%nat else option_map S (first_index p tr')
  end.

Definition is_blue_toggle (e : event) : bool :=
  match e with XorPORTB m => m =? LED_BLUE | _ => false end.

Definition is_pitch_read (i : Z) (e : event) : bool :=
  match e with RdPitch i' => i' =? i | _ => false end.

(** *** The events of the loops *)

(** The LED pins of the port after [n] periods of [blink_LEDs]: as they
    were when no period is played, cleared after the last one otherwise. *)
Definition port_after (n : nat) (p : Z) : Z :=
  match n with O => p | S _ => Z.land p LEDS_OFF end.

(** The toggles of a waveform wraparound at pitch [rate]. *)
Definition wrap_events (rate : Z) : list event :=
  (if red_condition rate then [XorPORTB LED_RED] else [])
  ++ (if green_condition rate then [XorPORTB LED_GREEN] else []).

(** The sample at waveform index [i]. *)
Definition wav_at (i : Z) : Z := nth (Z.to_nat i) gumballWavTab 0.

(** The events of one iteration of the [for] loop at waveform index [g]. *)
Definition sample_events (g rate : Z) : list event :=
  [ RdWav g; WrOCR0A (wav_at g); Busy (rate * (SAMP + 1)) ]
  ++ (if g =? 91 then wrap_events rate else []).

(** The [k] waveform indices that follow [g], each reduced modulo the
    size of the waveform table. *)
Definition wave_indices (g : Z) (k : nat) : list Z :=
  map (fun t => (g + Z.of_nat t) mod gumballWavTabSize) (seq 0 k).

(** The sum of the durations of the entries [l]. *)
Definition total_duration (l : list pitchElement) : Z :=
  fold_right (fun e acc => pitchDuration e + acc) 0 l.

(** Transitions taken for the entries [l]: for each one the test of the
    middle loop, one per sample, and the move to the next entry. *)
Definition entries_steps (l : list pitchElement) : nat :=
  fold_right (fun e acc => (S (S (Z.to_nat (pitchDuration e))) + acc)%nat)
             0%nat l.

(** *** Well-formed tables and the invariant of a pass *)

(** An entry that is played: its pitch is a nonzero [uint8_t] and its
    duration a [uint16_t]. *)
Definition playable (e : pitchElement) : bool :=
  (0 <? gumballPitch e) && (gumballPitch e <? 2 ^ 8)
  && (0 <=? pitchDuration e) && (pitchDuration e <? 2 ^ 16).

(** [tab] is [pre], then the first entry [e0] with pitch 0, then [rest];
    the index of [e0] fits the 8-bit pitch index. *)
Definition table_ok (tab pre : list pitchElement) (e0 : pitchElement)
  (rest : list pitchElement) : Prop :=
  tab = pre ++ e0 :: rest
  /\ forallb playable pre = true
  /\ gumballPitch e0 = 0
  /\ (length pre <= 255)%nat.

(** [pitchRate] and [pitchLen] hold the entry at [pitchIndex]. *)
Definition loaded (tab : list pitchElement) (s : cpu) : Prop :=
  exists e,
    nth_error tab (Z.to_nat (pitchIndex s)) = Some e
    /\ pitchRate s = gumballPitch e
    /\ pitchLen s = pitchDuration e.

(** The invariant of the loop tests; [n] is the index of the sentinel. *)
Definition pass_inv (tab : list pitchElement) (n : Z) (s : cpu) : Prop :=
  0 <= gumIndex s < gumballWavTabSize
  /\ 0 <= pitchIndex s <= n
  /\ match pc s with
     | AtPass => pitchIndex s = n /\ pitchRate s = 0
     | AtEntry => loaded tab s
     | AtSample j => loaded tab s /\ pitchIndex s < n /\ 0 <= j <= pitchLen s
     end.

(** Every index used for a read of the waveform table is inside the
    table, and every index used for a read of the pitch table is at most
    the index [n] of the sentinel. *)
Definition reads_in_range (n : Z) (tr : list event) : Prop :=
  Forall (fun i => 0 <= i < gumballWavTabSize) (wav_reads tr)
  /\ Forall (fun i => 0 <= i <= n) (pitch_reads tr).

(** No state among the first [k] of the run from [s] is at the top of the
    outer loop: the run has not left the pass it is in. *)
Definition stays_in_pass (tab : list pitchElement) (dfuel : nat) (s : cpu)
  (k : nat) : bool :=
  forallb (fun i => match run tab dfuel i s with
                    | Done si =>
                        match pc si with AtPass => false | _ => true end
                    | _ => true
                    end)
          (seq 0 k).

(** *** States used as examples *)

(** In the [for] loop at pitch 20, about to read the last waveform sample. *)
Definition wrap_state : cpu :=
  mkCPU (AtSample 0) 91 59 20 70 (mkIO 0 0 []).

(** At the test of the middle loop with entry 0, (100, 280), loaded. *)
Definition entry_state : cpu :=
  mkCPU AtEntry 90 0 100 280 (mkIO 0 0 []).

(* ================================================================= *)
(** ** The start of [main] *)

(** [_BV(bit)] of avr/sfr_defs.h is [1 << bit]. *)
Definition _BV (bit : Z) : Z := Z.shiftl 1 bit.

(** The bit numbers that [main] takes from avr/io.h.  The header is not
    part of the firmware source, so they are a parameter of the model. *)
Record io_names : Type := mkNames {
  PB0 : Z; PB1 : Z; PB2 : Z; PB3 : Z;
  COM0A1 : Z; WGM01 : Z; WGM00 : Z; CS00 : Z
}.

(** The bit numbers of the ATtiny13A; PB1, PB2 and PB3 agree with the
    masks [B8(00000010)], [B8(00000100)] and [B8(00001000)] that the loops
    use for the green, red and blue LED. *)
Definition attiny13a : io_names := mkNames 0 1 2 3 7 1 0 0.

(** The registers written before the loops. *)
Record setup_regs : Type := mkRegs {
  DDRB   : Z;
  TCCR0A : Z;
  TCCR0B : Z
}.

(** An 8-bit register after [reg |= mask]. *)
Definition or_reg (reg mask : Z) : Z := wrap8 (Z.lor reg mask).

(** The five assignments of [main] that come before [while (1)]. *)
Definition main_setup (nm : io_names) (r : setup_regs) : setup_regs :=
  let r1 := mkRegs (or_reg (DDRB r) (_BV (PB0 nm))) (TCCR0A r) (TCCR0B r) in
  let r2 := mkRegs (DDRB r1) (or_reg (TCCR0A r1) (_BV (COM0A1 nm)))
                   (TCCR0B r1) in
  let r3 := mkRegs (DDRB r2)
                   (or_reg (TCCR0A r2)
                           (Z.lor (_BV (WGM01 nm)) (_BV (WGM00 nm))))
                   (TCCR0B r2) in
  let r4 := mkRegs (DDRB r3) (TCCR0A r3)
                   (or_reg (TCCR0B r3) (_BV (CS00 nm))) in
  mkRegs (or_reg (DDRB r4)
                 (Z.lor (Z.lor (_BV (PB1 nm)) (_BV (PB2 nm))) (_BV (PB3 nm))))
         (TCCR0A r4) (TCCR0B r4).

(** All bit numbers name a bit of an 8-bit register. *)
Definition names_ok (nm : io_names) : Prop :=
  Forall (fun b => 0 <= b < 8)
         [ PB0 nm; PB1 nm; PB2 nm; PB3 nm;
           COM0A1 nm; WGM01 nm; WGM00 nm; CS00 nm ].

(* ================================================================= *)
(** ** Further vocabulary *)

(** The literal of eight binary digits, read as the hexadecimal number
    that [HEX__] makes of it, and the byte it is meant to denote. *)
Definition hex_reading (b7 b6 b5 b4 b3 b2 b1 b0 : bool) : Z :=
  Z.b2z b7 * 16 ^ 7 + Z.b2z b6 * 16 ^ 6 + Z.b2z b5 * 16 ^ 5
  + Z.b2z b4 * 16 ^ 4 + Z.b2z b3 * 16 ^ 3 + Z.b2z b2 * 16 ^ 2
  + Z.b2z b1 * 16 + Z.b2z b0.

Definition binary_value (b7 b6 b5 b4 b3 b2 b1 b0 : bool) : Z :=
  Z.b2z b7 * 2 ^ 7 + Z.b2z b6 * 2 ^ 6 + Z.b2z b5 * 2 ^ 5
  + Z.b2z b4 * 2 ^ 4 + Z.b2z b3 * 2 ^ 3 + Z.b2z b2 * 2 ^ 2
  + Z.b2z b1 * 2 + Z.b2z b0.

(** The ticks of all the delays of a trace. *)
Definition busy_ticks (tr : list event) : Z :=
  fold_right (fun e acc => match e with Busy t => t + acc | _ => acc end)
             0 tr.

(** The ticks spent in the delays of the entries [l]: every sample of an
    entry waits [gumballPitch] units of [SAMP + 1] ticks. *)
Definition entries_ticks (l : list pitchElement) : Z :=
  fold_right (fun e acc =>
                pitchDuration e * (gumballPitch e * (SAMP + 1)) + acc)
             0 l.

(** The number of times the waveform index passes its last value in [l]. *)
Definition wraps (l : list Z) : nat :=
  length (filter (fun i => i =? 91) l).

(** A PORTB bit that is not an LED pin. *)
Definition not_led_pin (k : Z) : Prop := k <> 1 /\ k <> 2 /\ k <> 3.

(** At the first sample of entry 7 of [pitchTab], whose pitch 95 is odd:
    the delay of one sample makes [95 * (SAMP + 1) = 1045] ticks. *)
Definition odd_pitch_state : cpu :=
  mkCPU (AtSample 0) 0 7 95 282 (mkIO 0 0 []).

(* ================================================================= *)
(** ** Facts about the machine integers *)

Lemma wrap32_small z : 0 <= z <= ULONG_MAX -> wrap32 z = z.
Proof.
  intros H. unfold wrap32, wrap, ULONG_MAX in *.
  apply Z.mod_small. lia.
Qed.

Lemma wrap32_range z : is_ulong (wrap32 z).
Proof.
  unfold is_ulong, wrap32, wrap, ULONG_MAX.
  pose proof (Z.mod_pos_bound z (2 ^ 32) ltac:(lia)). lia.
Qed.

Lemma wrap8_small z : 0 <= z < 256 -> wrap8 z = z.
Proof.
  intros H. unfold wrap8, wrap. apply Z.mod_small.
  change (2 ^ 8) with 256. lia.
Qed.

(* ================================================================= *)
(** ** The delay loops *)

Section DelayLoops.

Variable delayCount : Z.

(** The inner loop runs from [timer] up to [delayCount] inclusive. *)
Lemma delay_for_counts (n : nat) :
  forall fuel timer ticks,
    0 <= timer ->
    timer + Z.of_nat n = delayCount + 1 ->
    delayCount < ULONG_MAX ->
    (n < fuel)%nat ->
    delay_for fuel timer delayCount ticks = Some (ticks + Z.of_nat n).
Proof.
  induction n as [|n IH]; intros fuel timer ticks Ht Hn Hd Hf;
    destruct fuel as [|fuel]; try lia; simpl.
  - destruct (Z.leb_spec timer delayCount); [lia|].
    f_equal. lia.
  - destruct (Z.leb_spec timer delayCount); [|lia].
    rewrite wrap32_small by lia.
    rewrite IH by lia. f_equal. lia.
Qed.

Lemma delay_for_from_zero fuel ticks :
  0 <= delayCount < ULONG_MAX ->
  delayCount + 1 < Z.of_nat fuel ->
  delay_for fuel 0 delayCount ticks = Some (ticks + (delayCount + 1)).
Proof.
  intros Hd Hf.
  rewrite (delay_for_counts (Z.to_nat (delayCount + 1))); try lia.
  f_equal. lia.
Qed.

(** With [delayCount = ULONG_MAX] the loop test never fails. *)
Lemma delay_for_spins fuel :
  forall timer ticks,
    is_ulong timer ->
    delayCount = ULONG_MAX ->
    delay_for fuel timer delayCount ticks = None.
Proof.
  induction fuel as [|fuel IH]; intros timer ticks Ht Hd; simpl; [easy|].
  unfold is_ulong in Ht.
  destruct (Z.leb_spec timer delayCount); [|lia].
  apply IH; [apply wrap32_range | assumption].
Qed.

Lemma delay_while_counts (n : nat) :
  forall fuel ifuel units ticks,
    units = Z.of_nat n ->
    units <= ULONG_MAX ->
    0 <= delayCount < ULONG_MAX ->
    (n < fuel)%nat ->
    delayCount + 1 < Z.of_nat ifuel ->
    delay_while fuel ifuel units delayCount ticks
    = Some (ticks + units * (delayCount + 1)).
Proof.
  induction n as [|n IH]; intros fuel ifuel units ticks Hu Hm Hd Hf Hi;
    destruct fuel as [|fuel]; try lia; simpl.
  - subst units. simpl. f_equal. lia.
  - destruct (Z.eqb_spec units 0); [lia|]. simpl.
    rewrite delay_for_from_zero by lia.
    rewrite (IH fuel ifuel (wrap32 (units - 1)));
      rewrite ?wrap32_small; try lia.
    f_equal. lia.
Qed.

Lemma delay_while_zero fuel ifuel ticks :
  delay_while (S fuel) ifuel 0 delayCount ticks = Some ticks.
Proof. reflexivity. Qed.

Lemma delay_while_spins fuel ifuel units ticks :
  units <> 0 ->
  delayCount = ULONG_MAX ->
  delay_while fuel ifuel units delayCount ticks = None.
Proof.
  intros Hu Hd. destruct fuel as [|fuel]; simpl; [easy|].
  destruct (Z.eqb_spec units 0); [contradiction|]. simpl.
  rewrite delay_for_spins; [reflexivity | | assumption].
  unfold is_ulong, ULONG_MAX. lia.
Qed.

End DelayLoops.

(** More fuel does not change the result of a call that returns. *)
Lemma delay_for_more_fuel fuel :
  forall fuel' timer delayCount ticks t,
    (fuel <= fuel')%nat ->
    delay_for fuel timer delayCount ticks = Some t ->
    delay_for fuel' timer delayCount ticks = Some t.
Proof.
  induction fuel as [|fuel IH]; intros fuel' timer delayCount ticks t Hle H;
    [discriminate|].
  destruct fuel' as [|fuel']; [lia|]. cbn [delay_for] in *.
  destruct (timer <=? delayCount); [|assumption].
  apply IH; [lia | assumption].
Qed.

Lemma delay_while_more_fuel fuel :
  forall fuel' ifuel ifuel' units delayCount ticks t,
    (fuel <= fuel')%nat -> (ifuel <= ifuel')%nat ->
    delay_while fuel ifuel units delayCount ticks = Some t ->
    delay_while fuel' ifuel' units delayCount ticks = Some t.
Proof.
  induction fuel as [|fuel IH];
    intros fuel' ifuel ifuel' units delayCount ticks t Hle Hile H;
    [discriminate|].
  destruct fuel' as [|fuel']; [lia|]. cbn [delay_while] in *.
  destruct (negb (units =? 0)); [|assumption].
  destruct (delay_for ifuel 0 delayCount ticks) as [ticks'|] eqn:E;
    [|discriminate].
  rewrite (delay_for_more_fuel ifuel ifuel' 0 delayCount ticks ticks' Hile E).
  apply (IH fuel' ifuel); [lia | assumption | assumption].
Qed.

(** The number of ticks of a call that returns does not depend on the
    fuel. *)
Lemma delay_returns_unique units delayCount t t' :
  delay_returns units delayCount t ->
  delay_returns units delayCount t' ->
  t = t'.
Proof.
  intros [f Hf] [f' Hf']. unfold delaySomeTime in *.
  pose proof (delay_while_more_fuel f (Nat.max f f') f (Nat.max f f')
                units delayCount 0 t ltac:(lia) ltac:(lia) Hf) as H.
  pose proof (delay_while_more_fuel f' (Nat.max f f') f' (Nat.max f f')
                units delayCount 0 t' ltac:(lia) ltac:(lia) Hf') as H'.
  congruence.
Qed.

(** Closed form of a returning call, shared by the delay theorems. *)
Lemma delaySomeTime_closed_form fuel units delayCount :
  is_ulong units ->
  0 <= delayCount < ULONG_MAX ->
  units < Z.of_nat fuel ->
  delayCount + 1 < Z.of_nat fuel ->
  delaySomeTime fuel units delayCount = Some (units * (delayCount + 1)).
Proof.
  intros [Hu0 Hu] Hd Hf Hi. unfold delaySomeTime.
  rewrite (delay_while_counts delayCount (Z.to_nat units)); try lia.
  reflexivity.
Qed.

(* ================================================================= *)
(** ** Properties of [delaySomeTime] *)

(** C9: for [delayCount] below the largest [unsigned long] the call
    returns, after exactly [units * (delayCount + 1)] executions of the
    inner loop body; for [delayCount] equal to the largest [unsigned long]
    the test [timer <= delayCount] holds for every value of [timer], and a
    call with [units] nonzero never returns, whatever the fuel. *)
Theorem delaySomeTime_returns_unless_max :
  (forall fuel units delayCount,
      is_ulong units ->
      0 <= delayCount < ULONG_MAX ->
      units < Z.of_nat fuel ->
      delayCount + 1 < Z.of_nat fuel ->
      delaySomeTime fuel units delayCount = Some (units * (delayCount + 1)))
  /\ (forall timer, is_ulong timer -> (timer <=? ULONG_MAX) = true)
  /\ (forall fuel units,
        is_ulong units -> units <> 0 ->
        delaySomeTime fuel units ULONG_MAX = None).
Proof.
  split; [|split].
  - intros. now apply delaySomeTime_closed_form.
  - intros timer [_ Ht]. now apply Z.leb_le.
  - intros fuel units _ Hu. unfold delaySomeTime.
    now apply delay_while_spins.
Qed.

Lemma delaySomeTime_returns_unless_max_witness :
  delaySomeTime 20 3 SAMP = Some 33
  /\ (ULONG_MAX <=? ULONG_MAX) = true
  /\ delaySomeTime 20 3 ULONG_MAX = None.
Proof.
  destruct delaySomeTime_returns_unless_max as (Hret & Htest & Hspin).
  split; [|split].
  - apply (Hret 20%nat 3 SAMP); unfold is_ulong, ULONG_MAX, SAMP; simpl; lia.
  - apply (Htest ULONG_MAX). unfold is_ulong, ULONG_MAX. lia.
  - apply (Hspin 20%nat 3); unfold is_ulong, ULONG_MAX; lia.
Defined.

(** C6, as stated, fails: no constant [k] makes the number of ticks of
    every returning call equal to [k * (units * delayCount)]; one unit with
    [delayCount = 0] already ticks once. *)
Lemma delay_ticks_not_proportional_to_product :
  ~ exists k : Z,
      forall units delayCount t,
        is_ulong units -> 0 <= delayCount < ULONG_MAX ->
        delay_returns units delayCount t ->
        t = k * (units * delayCount).
Proof.
  intros [k Hk].
  assert (1 = k * (1 * 0)) as Habs; [|lia].
  apply Hk; unfold is_ulong, ULONG_MAX; try lia.
  exists 2%nat. reflexivity.
Qed.

(** C6, amended: the number of ticks is [units * (delayCount + 1)]; it is
    proportional to [units], the constant being the [delayCount + 1] ticks
    of a single unit. *)
Theorem delay_ticks_proportional_to_units fuel units delayCount :
  is_ulong units ->
  0 <= delayCount < ULONG_MAX ->
  1 < Z.of_nat fuel ->
  units < Z.of_nat fuel ->
  delayCount + 1 < Z.of_nat fuel ->
  exists per_unit,
    delaySomeTime fuel 1 delayCount = Some per_unit
    /\ per_unit = delayCount + 1
    /\ delaySomeTime fuel units delayCount = Some (units * per_unit).
Proof.
  intros Hu Hd H1 Hf Hi. exists (delayCount + 1).
  split; [|split]; trivial.
  - rewrite delaySomeTime_closed_form; unfold is_ulong, ULONG_MAX in *;
      try lia.
    f_equal. lia.
  - now apply delaySomeTime_closed_form.
Qed.

Lemma delay_ticks_proportional_to_units_witness :
  exists per_unit,
    delaySomeTime 300 1 SAMP = Some per_unit
    /\ per_unit = SAMP + 1
    /\ delaySomeTime 300 255 SAMP = Some (255 * per_unit).
Proof.
  apply (delay_ticks_proportional_to_units 300%nat 255 SAMP);
    unfold is_ulong, ULONG_MAX, SAMP; simpl; lia.
Defined.

(** C7, as stated, fails: with no units the call ticks zero times for every
    tick count, so the ticks do not strictly increase with the tick count. *)
Lemma delay_ticks_not_strict_in_delayCount :
  ~ forall units d d' t t',
      is_ulong units -> 0 <= d -> d < d' -> d' < ULONG_MAX ->
      delay_returns units d t -> delay_returns units d' t' ->
      t < t'.
Proof.
  intros H.
  assert (0 < 0) as Habs; [|lia].
  apply (H 0 1 2 0 0); unfold is_ulong, ULONG_MAX; try lia;
    exists 1%nat; reflexivity.
Qed.

(** C7, amended: the ticks strictly increase with the unit count; they
    increase with the tick count, strictly when the unit count is not zero;
    they are zero when the unit count is zero. *)
Theorem delay_ticks_monotone fuel units units' d d' :
  is_ulong units -> is_ulong units' ->
  0 <= d -> d <= d' -> d' < ULONG_MAX ->
  units <= units' ->
  units' < Z.of_nat fuel ->
  d' + 1 < Z.of_nat fuel ->
  exists t t_units t_count,
    delaySomeTime fuel units d = Some t
    /\ delaySomeTime fuel units' d = Some t_units
    /\ delaySomeTime fuel units d' = Some t_count
    /\ t <= t_units /\ t <= t_count
    /\ (units < units' -> t < t_units)
    /\ (d < d' -> 0 < units -> t < t_count)
    /\ delaySomeTime fuel 0 d = Some 0.
Proof.
  intros [Hu0 Hu] [Hv0 Hv] Hd0 Hdd Hd' Huu Hf Hi.
  exists (units * (d + 1)), (units' * (d + 1)), (units * (d' + 1)).
  rewrite !delaySomeTime_closed_form by (unfold is_ulong; lia).
  repeat split; try nia.
Qed.

Lemma delay_ticks_monotone_witness :
  exists t t_units t_count,
    delaySomeTime 300 100 SAMP = Some t
    /\ delaySomeTime 300 200 SAMP = Some t_units
    /\ delaySomeTime 300 100 TENTH_MS = Some t_count
    /\ t <= t_units /\ t <= t_count
    /\ (100 < 200 -> t < t_units)
    /\ (SAMP < TENTH_MS -> 0 < 100 -> t < t_count)
    /\ delaySomeTime 300 0 SAMP = Some 0.
Proof.
  apply (delay_ticks_monotone 300%nat 100 200 SAMP TENTH_MS);
    unfold is_ulong, ULONG_MAX, SAMP, TENTH_MS; simpl; lia.
Defined.

(* ================================================================= *)
(** ** Properties of [blink_LEDs] *)

(** An even number of ticks leaves PB5 as it was, an odd number inverts
    it; no other bit of the port is touched. *)
Lemma delay_port_spec ticks p :
  0 <= ticks ->
  delay_port ticks p = if Z.odd ticks then Z.lxor p DELAY_PIN else p.
Proof.
  intros Ht. unfold delay_port. revert ticks Ht.
  apply natlike_ind; [reflexivity|].
  intros t Ht IH. rewrite iter_nat_of_Z, Zabs2Nat.inj_succ by lia.
  cbn [nat_rect]. rewrite <- iter_nat_of_Z by assumption.
  rewrite IH, Z.odd_succ, <- Z.negb_odd.
  destruct (Z.odd t); cbn [negb]; [|reflexivity].
  now rewrite Z.lxor_assoc, Z.lxor_nilpotent, Z.lxor_0_r.
Qed.

Lemma delay_port_bit ticks p k :
  0 <= ticks -> k <> 5 ->
  Z.testbit (delay_port ticks p) k = Z.testbit p k.
Proof.
  intros Ht Hk. rewrite delay_port_spec by assumption.
  destruct (Z.odd ticks); [|reflexivity].
  change DELAY_PIN with (2 ^ 5).
  rewrite Z.lxor_spec, Z.pow2_bits_eqb by lia.
  destruct (Z.eqb_spec 5 k); [congruence | apply xorb_false_r].
Qed.

Lemma delay_port_pin ticks p :
  0 <= ticks ->
  Z.testbit (delay_port ticks p) 5 = xorb (Z.testbit p 5) (Z.odd ticks).
Proof.
  intros Ht. rewrite delay_port_spec by assumption.
  destruct (Z.odd ticks); [|now rewrite xorb_false_r].
  change DELAY_PIN with (2 ^ 5).
  now rewrite Z.lxor_spec, Z.pow2_bits_eqb by lia.
Qed.

Lemma busy_returns fuel units delayCount h :
  is_ulong units ->
  0 <= delayCount < ULONG_MAX ->
  units < Z.of_nat fuel ->
  delayCount + 1 < Z.of_nat fuel ->
  busy fuel units delayCount h
  = Done (mkIO (delay_port (units * (delayCount + 1)) (PORTB h)) (OCR0A h)
               (trace h ++ [Busy (units * (delayCount + 1))])).
Proof.
  intros. unfold busy.
  now rewrite delaySomeTime_closed_form.
Qed.

Lemma busy_never_faults fuel units delayCount h f :
  busy fuel units delayCount h <> Fault f.
Proof.
  unfold busy. destruct (delaySomeTime fuel units delayCount); discriminate.
Qed.

Lemma delay_for_ticks_le fuel :
  forall timer delayCount ticks t,
    delay_for fuel timer delayCount ticks = Some t -> ticks <= t.
Proof.
  induction fuel as [|fuel IH]; intros timer delayCount ticks t H;
    cbn [delay_for] in H; [discriminate|].
  destruct (timer <=? delayCount).
  - apply IH in H. lia.
  - injection H as <-. lia.
Qed.

Lemma delay_while_ticks_le fuel :
  forall ifuel units delayCount ticks t,
    delay_while fuel ifuel units delayCount ticks = Some t -> ticks <= t.
Proof.
  induction fuel as [|fuel IH]; intros ifuel units delayCount ticks t H;
    cbn [delay_while] in H; [discriminate|].
  destruct (negb (units =? 0)).
  - destruct (delay_for ifuel 0 delayCount ticks) as [t1|] eqn:E1;
      [|discriminate].
    apply delay_for_ticks_le in E1. apply IH in H. lia.
  - injection H as <-. lia.
Qed.

(** What a returning delay does to the registers: its ticks toggle PB5
    and nothing else. *)
Lemma busy_port fuel units delayCount h h' :
  busy fuel units delayCount h = Done h' ->
  exists t,
    0 <= t
    /\ trace h' = trace h ++ [Busy t]
    /\ OCR0A h' = OCR0A h
    /\ (forall k, k <> 5 -> Z.testbit (PORTB h') k = Z.testbit (PORTB h) k)
    /\ Z.testbit (PORTB h') 5 = xorb (Z.testbit (PORTB h) 5) (Z.odd t).
Proof.
  unfold busy, delaySomeTime.
  destruct (delay_while fuel fuel units delayCount 0) as [t|] eqn:E;
    [|discriminate].
  apply delay_while_ticks_le in E.
  intros [= <-]. exists t. cbn [PORTB OCR0A trace].
  split; [exact E|]. split; [reflexivity|]. split; [reflexivity|].
  split; [intros k Hk; now apply delay_port_bit | now apply delay_port_pin].
Qed.

(** The three LED pins are PB1, PB2 and PB3. *)
Lemma led_pins p k :
  1 <= k <= 3 ->
  Z.testbit (Z.lor p LEDS_ON) k = true
  /\ Z.testbit (Z.land p LEDS_OFF) k = false.
Proof.
  intros Hk. rewrite Z.lor_spec, Z.land_spec.
  assert (k = 1 \/ k = 2 \/ k = 3) as [->|[->| ->]] by lia;
    (split; [apply orb_true_r | apply andb_false_r]).
Qed.

Section Blink.

Variables duration onTime offTime : Z.
Variable dfuel : nat.

Variables period periods : Z.
Hypothesis period_def  : period = wrap32 (onTime + offTime).
Hypothesis periods_def : periods = duration / period.

Hypothesis on_range  : is_ulong onTime.
Hypothesis off_range : is_ulong offTime.
Hypothesis period_nonzero : period <> 0.
Hypothesis on_fuel  : onTime < Z.of_nat dfuel.
Hypothesis off_fuel : offTime < Z.of_nat dfuel.
Hypothesis tick_fuel : TENTH_MS + 1 < Z.of_nat dfuel.

Lemma blink_body h :
  exists p,
    (h1 <- Done (or_PORTB LEDS_ON h) ;;
     h2 <- busy dfuel onTime TENTH_MS h1 ;;
     h3 <- Done (and_PORTB LEDS_OFF h2) ;;
     busy dfuel offTime TENTH_MS h3)
    = Done (mkIO p (OCR0A h) (trace h ++ blink_period onTime offTime))
    /\ forall k, 1 <= k <= 3 -> Z.testbit p k = false.
Proof.
  cbn [bind]. rewrite busy_returns; cbn [bind];
    [| assumption | unfold TENTH_MS, ULONG_MAX; lia | assumption | assumption].
  rewrite busy_returns;
    [| assumption | unfold TENTH_MS, ULONG_MAX; lia | assumption | assumption].
  unfold and_PORTB, or_PORTB, blink_period. cbn [PORTB OCR0A trace].
  eexists. split; [rewrite <- !app_assoc; reflexivity|].
  intros k Hk. unfold is_ulong, TENTH_MS in *.
  rewrite delay_port_bit by lia.
  apply led_pins, Hk.
Qed.

(** [n] more periods are played when the counter stays an [int]; the LED
    pins end as [port_after] says. *)
Lemma blink_for_periods (n : nat) :
  forall fuel i h,
    0 <= i ->
    i + Z.of_nat n = periods ->
    periods <= INT_MAX ->
    (n < fuel)%nat ->
    exists p,
      blink_for fuel dfuel i duration onTime offTime h
      = Done (mkIO p (OCR0A h)
                   (trace h ++ concat (repeat (blink_period onTime offTime) n)))
      /\ forall k, 1 <= k <= 3 ->
                   Z.testbit p k = Z.testbit (port_after n (PORTB h)) k.
Proof.
  induction n as [|n IH]; intros fuel i h Hi Hn Hq Hf;
    destruct fuel as [|fuel]; try lia; cbn [blink_for];
    rewrite <- period_def, <- periods_def;
    (destruct (Z.eqb_spec period 0); [contradiction|]);
    rewrite wrap32_small by (unfold INT_MAX, ULONG_MAX in *; lia).
  - destruct (Z.ltb_spec i periods); [lia|].
    exists (PORTB h). cbn [repeat concat port_after].
    rewrite app_nil_r. split; [now destruct h | reflexivity].
  - destruct (Z.ltb_spec i periods); [|lia].
    destruct (blink_body h) as (pb & Hb & Hoff). cbn [bind] in Hb |- *.
    destruct (busy dfuel onTime TENTH_MS (or_PORTB LEDS_ON h)) as [h2| |];
      cbn [bind] in Hb |- *; try discriminate.
    rewrite Hb. cbn [bind].
    destruct (Z.gtb_spec (i + 1) INT_MAX); [lia|].
    destruct (IH fuel (i + 1)
                 (mkIO pb (OCR0A h) (trace h ++ blink_period onTime offTime)))
      as (p & Hrun & Hp); try lia.
    cbn [PORTB OCR0A trace] in Hrun, Hp.
    exists p. split.
    + rewrite Hrun. cbn [repeat concat]. now rewrite <- !app_assoc.
    + intros k Hk. rewrite (Hp k Hk). cbn [port_after].
      destruct (led_pins (PORTB h) k Hk) as (_ & ->).
      destruct n; cbn [port_after]; [now apply Hoff|].
      now destruct (led_pins pb k Hk) as (_ & ->).
Qed.

(** When more than [INT_MAX] periods fit, the signed counter overflows. *)
Lemma blink_for_counter_overflow (n : nat) :
  forall fuel i h,
    0 <= i ->
    i + Z.of_nat n = INT_MAX ->
    INT_MAX < periods ->
    (n < fuel)%nat ->
    blink_for fuel dfuel i duration onTime offTime h = Fault SignedOverflow.
Proof.
  induction n as [|n IH]; intros fuel i h Hi Hn Hq Hf;
    destruct fuel as [|fuel]; try lia; cbn [blink_for];
    rewrite <- period_def, <- periods_def;
    (destruct (Z.eqb_spec period 0); [contradiction|]);
    rewrite wrap32_small by (unfold INT_MAX, ULONG_MAX in *; lia);
    (destruct (Z.ltb_spec i periods); [|lia]);
    destruct (blink_body h) as (pb & Hb & _); cbn [bind] in Hb |- *;
    (destruct (busy dfuel onTime TENTH_MS (or_PORTB LEDS_ON h)) as [h2| |];
      cbn [bind] in Hb |- *; try discriminate);
    rewrite Hb; cbn [bind].
  - destruct (Z.gtb_spec (i + 1) INT_MAX); [reflexivity|lia].
  - destruct (Z.gtb_spec (i + 1) INT_MAX); [lia|].
    now apply IH; try lia.
Qed.

End Blink.

Lemma blink_for_no_division_fault fuel :
  forall dfuel i duration onTime offTime h,
    wrap32 (onTime + offTime) <> 0 ->
    blink_for fuel dfuel i duration onTime offTime h <> Fault DivisionByZero.
Proof.
  induction fuel as [|fuel IH]; intros dfuel i duration onTime offTime h Hp;
    cbn [blink_for]; [discriminate|].
  destruct (Z.eqb_spec (wrap32 (onTime + offTime)) 0); [contradiction|].
  destruct (_ <? _); [|discriminate].
  cbn [bind].
  destruct (busy dfuel onTime TENTH_MS _) as [h2| |f2] eqn:E2; cbn [bind];
    [| discriminate | now apply busy_never_faults in E2].
  destruct (busy dfuel offTime TENTH_MS _) as [h4| |f4] eqn:E4; cbn [bind];
    [| discriminate | now apply busy_never_faults in E4].
  destruct (_ >? _); [discriminate|].
  now apply IH.
Qed.

(** C8, as stated, fails: with [onTime = 0] and [offTime = 0] the call
    plays no number of periods at all, it divides by zero. *)
Lemma blink_LEDs_not_for_every_input :
  ~ exists fuel h',
      blink_LEDs fuel 1 0 0 (mkIO 0 0 []) = Done h'.
Proof.
  intros (fuel & h' & H). destruct fuel; discriminate.
Qed.

(** C8, amended: when the [unsigned long] sum [onTime + offTime] is not
    zero and the quotient of [duration] by it fits the [int] counter,
    [blink_LEDs] plays exactly that many periods and nothing else, each
    one setting the three LED pins, waiting for [onTime] units, clearing
    the three pins and waiting for [offTime] units. *)
Theorem blink_LEDs_whole_periods fuel duration onTime offTime h :
  is_ulong duration -> is_ulong onTime -> is_ulong offTime ->
  wrap32 (onTime + offTime) <> 0 ->
  duration / wrap32 (onTime + offTime) <= INT_MAX ->
  duration / wrap32 (onTime + offTime) < Z.of_nat fuel ->
  onTime < Z.of_nat fuel -> offTime < Z.of_nat fuel ->
  TENTH_MS + 1 < Z.of_nat fuel ->
  exists h',
    blink_LEDs fuel duration onTime offTime h = Done h'
    /\ trace h' = trace h ++
         concat (repeat (blink_period onTime offTime)
                        (Z.to_nat (duration / wrap32 (onTime + offTime))))
    /\ (forall k, 1 <= k <= 3 ->
          Z.testbit (PORTB h') k
          = Z.testbit
              (port_after (Z.to_nat (duration / wrap32 (onTime + offTime)))
                          (PORTB h)) k)
    /\ OCR0A h' = OCR0A h
    /\ (forall p k, 1 <= k <= 3 ->
          Z.testbit (Z.lor p LEDS_ON) k = true
          /\ Z.testbit (Z.land p LEDS_OFF) k = false).
Proof.
  intros [Hd0 Hd] Hon Hoff Hp Hq Hf Hfon Hfoff Hft.
  assert (0 <= duration / wrap32 (onTime + offTime)) as Hq0.
  { apply Z.div_pos; [assumption|].
    pose proof (wrap32_range (onTime + offTime)) as [? _]. lia. }
  destruct (blink_for_periods duration onTime offTime fuel _ _ eq_refl eq_refl
              Hon Hoff Hp Hfon Hfoff Hft
              (Z.to_nat (duration / wrap32 (onTime + offTime))) fuel 0 h)
    as (p & Hrun & Hpins); try lia.
  eexists. split; [exact Hrun|].
  cbn [PORTB OCR0A trace].
  split; [reflexivity|]. split; [exact Hpins|]. split; [reflexivity|].
  apply led_pins.
Qed.

Lemma blink_LEDs_whole_periods_witness :
  exists h',
    blink_LEDs 200 10 2 1 (mkIO 0 0 []) = Done h'
    /\ trace h' = [] ++
         concat (repeat (blink_period 2 1) (Z.to_nat (10 / wrap32 (2 + 1))))
    /\ (forall k, 1 <= k <= 3 ->
          Z.testbit (PORTB h') k
          = Z.testbit (port_after (Z.to_nat (10 / wrap32 (2 + 1))) 0) k)
    /\ OCR0A h' = 0
    /\ (forall p k, 1 <= k <= 3 ->
          Z.testbit (Z.lor p LEDS_ON) k = true
          /\ Z.testbit (Z.land p LEDS_OFF) k = false).
Proof.
  apply (blink_LEDs_whole_periods 200%nat 10 2 1 (mkIO 0 0 []));
    unfold is_ulong, ULONG_MAX, INT_MAX, TENTH_MS; cbn; lia.
Defined.

(** C10: the quotient [duration/(onTime+offTime)] is taken without a
    guard.  When the [unsigned long] sum is not zero no call ends in a
    division by zero; when it is zero, as with [onTime = 0] and
    [offTime = 0], every call does, at the first test of the loop. *)
Theorem blink_LEDs_division_guard :
  (forall fuel duration onTime offTime h,
      wrap32 (onTime + offTime) <> 0 ->
      blink_LEDs fuel duration onTime offTime h <> Fault DivisionByZero)
  /\ (forall fuel duration onTime offTime h,
        wrap32 (onTime + offTime) = 0 ->
        blink_LEDs (S fuel) duration onTime offTime h = Fault DivisionByZero)
  /\ (forall fuel duration h,
        blink_LEDs (S fuel) duration 0 0 h = Fault DivisionByZero).
Proof.
  split; [|split].
  - intros. now apply blink_for_no_division_fault.
  - intros fuel duration onTime offTime h H0.
    unfold blink_LEDs. cbn [blink_for]. now rewrite H0.
  - reflexivity.
Qed.

Lemma blink_LEDs_division_guard_witness :
  blink_LEDs 200 10 2 1 (mkIO 0 0 []) <> Fault DivisionByZero
  /\ blink_LEDs 200 10 (2 ^ 31) (2 ^ 31) (mkIO 0 0 []) = Fault DivisionByZero
  /\ blink_LEDs 200 10 0 0 (mkIO 0 0 []) = Fault DivisionByZero.
Proof.
  destruct blink_LEDs_division_guard as (Hsafe & Hwrap & Hzero).
  split; [|split].
  - apply (Hsafe 200%nat 10 2 1). vm_compute. discriminate.
  - apply (Hwrap 199%nat 10 (2 ^ 31) (2 ^ 31)). reflexivity.
  - apply (Hzero 199%nat 10).
Defined.

(* ================================================================= *)
(** ** The LED conditions of the waveform wraparound *)

Lemma red_condition_spec rate :
  red_condition rate = true <-> ((50 | rate) \/ (20 | rate)).
Proof.
  unfold red_condition.
  rewrite orb_true_iff, !Z.eqb_eq, !Z.rem_divide by lia. reflexivity.
Qed.

Lemma green_condition_spec rate :
  green_condition rate = true <-> ((40 | rate) \/ (10 | rate)).
Proof.
  unfold green_condition.
  rewrite orb_true_iff, !Z.eqb_eq, !Z.rem_divide by lia. reflexivity.
Qed.

(** A pitch that toggles the red LED toggles the green one as well. *)
Lemma red_implies_green rate :
  red_condition rate = true -> green_condition rate = true.
Proof.
  rewrite red_condition_spec, green_condition_spec.
  intros [[k ->]|[k ->]]; right; [exists (5 * k) | exists (2 * k)]; lia.
Qed.

Lemma wrap_LEDs_trace rate h :
  trace (wrap_LEDs rate h) = trace h ++ wrap_events rate.
Proof.
  unfold wrap_LEDs, wrap_events.
  destruct (red_condition rate), (green_condition rate); simpl;
    rewrite <- ?app_assoc, ?app_nil_r; reflexivity.
Qed.

Lemma wrap_LEDs_port rate h :
  PORTB (wrap_LEDs rate h)
  = Z.lxor (Z.lxor (PORTB h) (if red_condition rate then LED_RED else 0))
           (if green_condition rate then LED_GREEN else 0).
Proof.
  unfold wrap_LEDs.
  destruct (red_condition rate), (green_condition rate); simpl;
    rewrite ?Z.lxor_0_r; reflexivity.
Qed.

Lemma wrap_LEDs_OCR0A rate h : OCR0A (wrap_LEDs rate h) = OCR0A h.
Proof.
  unfold wrap_LEDs.
  destruct (red_condition rate), (green_condition rate); reflexivity.
Qed.

Lemma wrap_events_toggles rate :
  toggles LED_RED (wrap_events rate) = (if red_condition rate then 1 else 0)%nat
  /\ toggles LED_GREEN (wrap_events rate)
     = (if green_condition rate then 1 else 0)%nat
  /\ toggles LED_BLUE (wrap_events rate) = 0%nat.
Proof.
  unfold wrap_events.
  destruct (red_condition rate), (green_condition rate); repeat split.
Qed.

(** Bits 1, 2 and 3 of the port after the two conditional toggles. *)
Lemma wrap_LEDs_pins rate h :
  Z.testbit (PORTB (wrap_LEDs rate h)) 2
  = xorb (Z.testbit (PORTB h) 2) (red_condition rate)
  /\ Z.testbit (PORTB (wrap_LEDs rate h)) 1
     = xorb (Z.testbit (PORTB h) 1) (green_condition rate)
  /\ Z.testbit (PORTB (wrap_LEDs rate h)) 3 = Z.testbit (PORTB h) 3.
Proof.
  rewrite wrap_LEDs_port, !Z.lxor_spec.
  generalize (Z.testbit (PORTB h) 1), (Z.testbit (PORTB h) 2),
    (Z.testbit (PORTB h) 3).
  intros b1 b2 b3.
  destruct (red_condition rate), (green_condition rate), b1, b2, b3;
    repeat split.
Qed.

(* ================================================================= *)
(** ** Single transitions of the sequencer *)

Lemma wav_defined g :
  0 <= g < gumballWavTabSize ->
  nth_error gumballWavTab (Z.to_nat g)
  = Some (nth (Z.to_nat g) gumballWavTab 0).
Proof.
  intros Hg. apply nth_error_nth'.
  change (length gumballWavTab) with 92%nat.
  unfold gumballWavTabSize in Hg. lia.
Qed.

Lemma next_index g :
  0 <= g < gumballWavTabSize ->
  (if wrap8 (g + 1) >=? gumballWavTabSize then 0 else wrap8 (g + 1))
  = (g + 1) mod gumballWavTabSize
  /\ ((wrap8 (g + 1) >=? gumballWavTabSize) = (g =? 91)).
Proof.
  unfold gumballWavTabSize. intros Hg.
  rewrite wrap8_small by lia.
  destruct (Z.eqb_spec g 91) as [->|Hne]; [split; reflexivity|].
  destruct (Z.geb_spec (g + 1) 92); [lia|].
  now rewrite Z.mod_small by lia.
Qed.

Section Transitions.

Variable tab : list pitchElement.
Variable dfuel : nat.
Hypothesis dfuel_ok : 256 <= Z.of_nat dfuel.

Lemma play_sample_returns s :
  0 <= gumIndex s < gumballWavTabSize ->
  is_uint8 (pitchRate s) ->
  exists h,
    play_sample dfuel s = Done ((gumIndex s + 1) mod gumballWavTabSize, h)
    /\ trace h = trace (port s) ++ sample_events (gumIndex s) (pitchRate s)
    /\ (forall k, k <> 5 ->
          Z.testbit (PORTB h) k
          = Z.testbit (if gumIndex s =? 91
                       then PORTB (wrap_LEDs (pitchRate s) (port s))
                       else PORTB (port s)) k)
    /\ Z.testbit (PORTB h) 5
       = xorb (Z.testbit (PORTB (port s)) 5)
              (Z.odd (pitchRate s * (SAMP + 1))).
Proof.
  intros Hg Hr. unfold play_sample, index_after_increment, sample_events.
  rewrite (wav_defined _ Hg). cbn [bind].
  rewrite busy_returns; cbn [bind];
    [| unfold is_uint8, is_ulong, ULONG_MAX in *; lia
     | unfold SAMP, ULONG_MAX; lia
     | unfold is_uint8 in Hr; lia
     | unfold SAMP; lia ].
  assert (0 <= pitchRate s * (SAMP + 1)) as Ht
    by (unfold is_uint8, SAMP in *; lia).
  destruct (next_index _ Hg) as [Hnext Hwrap].
  rewrite Hwrap in *.
  destruct (gumIndex s =? 91).
  - rewrite <- Hnext. eexists. split; [reflexivity|].
    rewrite wrap_LEDs_trace, !wrap_LEDs_port.
    cbn [trace PORTB emit write_OCR0A].
    rewrite <- !app_assoc. split; [reflexivity|]. split.
    + intros k Hk. rewrite !Z.lxor_spec. now rewrite delay_port_bit.
    + rewrite !Z.lxor_spec, delay_port_pin by assumption.
      destruct (red_condition (pitchRate s)),
        (green_condition (pitchRate s)); cbn; now rewrite !xorb_false_r.
  - rewrite <- Hnext. eexists. split; [reflexivity|].
    cbn [trace PORTB emit write_OCR0A].
    rewrite <- !app_assoc, app_nil_r. split; [reflexivity|]. split.
    + intros k Hk. now apply delay_port_bit.
    + now apply delay_port_pin.
Qed.

Lemma step_sample s j :
  pc s = AtSample j ->
  j < pitchLen s ->
  0 <= gumIndex s < gumballWavTabSize ->
  is_uint8 (pitchRate s) ->
  exists h,
    step tab dfuel s
    = Done (mkCPU (AtSample (wrap32 (j + 1)))
                  ((gumIndex s + 1) mod gumballWavTabSize)
                  (pitchIndex s) (pitchRate s) (pitchLen s) h)
    /\ trace h = trace (port s) ++ sample_events (gumIndex s) (pitchRate s)
    /\ (forall k, k <> 5 ->
          Z.testbit (PORTB h) k
          = Z.testbit (if gumIndex s =? 91
                       then PORTB (wrap_LEDs (pitchRate s) (port s))
                       else PORTB (port s)) k)
    /\ Z.testbit (PORTB h) 5
       = xorb (Z.testbit (PORTB (port s)) 5)
              (Z.odd (pitchRate s * (SAMP + 1))).
Proof.
  intros Hpc Hj Hg Hr. unfold step. rewrite Hpc.
  destruct (Z.ltb_spec j (pitchLen s)); [|lia].
  destruct (play_sample_returns s Hg Hr) as (h & Hplay & Htr & Hport & Hpin).
  exists h. rewrite Hplay. cbn [bind]. auto.
Qed.

Lemma step_advance s j e :
  pc s = AtSample j ->
  pitchLen s <= j ->
  nth_error tab (Z.to_nat (wrap8 (pitchIndex s + 1))) = Some e ->
  step tab dfuel s
  = Done (mkCPU AtEntry (gumIndex s) (wrap8 (pitchIndex s + 1))
                (gumballPitch e) (pitchDuration e)
                (xor_PORTB LED_BLUE
                   (emit (RdLen (wrap8 (pitchIndex s + 1)))
                      (emit (RdPitch (wrap8 (pitchIndex s + 1))) (port s))))).
Proof.
  intros Hpc Hj He. unfold step, load_entry. rewrite Hpc.
  destruct (Z.ltb_spec j (pitchLen s)); [lia|].
  rewrite He. reflexivity.
Qed.

Lemma step_pass s e :
  pc s = AtPass ->
  nth_error tab 0 = Some e ->
  step tab dfuel s
  = Done (mkCPU AtEntry 0 0 (gumballPitch e) (pitchDuration e)
                (emit (RdLen 0) (emit (RdPitch 0) (port s)))).
Proof.
  intros Hpc He. unfold step, load_entry. rewrite Hpc.
  change (Z.to_nat 0) with 0%nat. rewrite He. reflexivity.
Qed.

Lemma step_entry s :
  pc s = AtEntry ->
  step tab dfuel s
  = Done (mkCPU (if pitchRate s =? 0 then AtPass else AtSample 0)
                (gumIndex s) (pitchIndex s) (pitchRate s) (pitchLen s)
                (port s)).
Proof.
  intros Hpc. unfold step. rewrite Hpc.
  now destruct (pitchRate s =? 0).
Qed.

End Transitions.

(** C3: an iteration of the [for] loop that resets the waveform index to 0
    toggles the red LED exactly once when the pitch is a multiple of 50 or
    of 20 and not at all otherwise, and the green LED exactly once when the
    pitch is a multiple of 40 or of 10 and not at all otherwise; an
    iteration that does not reset the index toggles neither.  Pitch 20
    toggles both, pitch 7 neither. *)
Theorem wraparound_toggles_red_and_green tab dfuel s j :
  256 <= Z.of_nat dfuel ->
  pc s = AtSample j ->
  j < pitchLen s ->
  0 <= gumIndex s < gumballWavTabSize ->
  is_uint8 (pitchRate s) ->
  exists s' tr,
    step tab dfuel s = Done s'
    /\ trace (port s') = trace (port s) ++ tr
    /\ (gumIndex s' = 0 <-> gumIndex s = 91)
    /\ (gumIndex s' = 0 ->
          (toggles LED_RED tr = 1%nat <->
             ((50 | pitchRate s) \/ (20 | pitchRate s)))
          /\ (toggles LED_RED tr = 0%nat <->
                ~ ((50 | pitchRate s) \/ (20 | pitchRate s)))
          /\ (toggles LED_GREEN tr = 1%nat <->
                ((40 | pitchRate s) \/ (10 | pitchRate s)))
          /\ (toggles LED_GREEN tr = 0%nat <->
                ~ ((40 | pitchRate s) \/ (10 | pitchRate s)))
          /\ Z.testbit (PORTB (port s')) 2
             = xorb (Z.testbit (PORTB (port s)) 2) (red_condition (pitchRate s))
          /\ Z.testbit (PORTB (port s')) 1
             = xorb (Z.testbit (PORTB (port s)) 1)
                    (green_condition (pitchRate s)))
    /\ (gumIndex s' <> 0 ->
          toggles LED_RED tr = 0%nat /\ toggles LED_GREEN tr = 0%nat
          /\ forall k, 1 <= k <= 3 ->
               Z.testbit (PORTB (port s')) k = Z.testbit (PORTB (port s)) k)
    /\ (red_condition 20 = true /\ green_condition 20 = true)
    /\ (red_condition 7 = false /\ green_condition 7 = false).
Proof.
  intros Hf Hpc Hj Hg Hr.
  destruct (step_sample tab dfuel Hf s j Hpc Hj Hg Hr)
    as (h & Hstep & Htr & Hport & _).
  eexists. exists (sample_events (gumIndex s) (pitchRate s)).
  split; [exact Hstep|]. cbn [port gumIndex].
  split; [exact Htr|].
  assert ((gumIndex s + 1) mod gumballWavTabSize = 0 <-> gumIndex s = 91)
    as Hwrap.
  { unfold gumballWavTabSize in *. split.
    - intros H0. destruct (Z.eq_dec (gumIndex s) 91); [assumption|].
      rewrite Z.mod_small in H0; lia.
    - intros ->. reflexivity. }
  split; [exact Hwrap|].
  unfold sample_events.
  destruct (wrap_events_toggles (pitchRate s)) as (Hred & Hgreen & _).
  destruct (wrap_LEDs_pins (pitchRate s) (port s)) as (Hp2 & Hp1 & _).
  pose proof (red_condition_spec (pitchRate s)) as Hrs.
  pose proof (green_condition_spec (pitchRate s)) as Hgs.
  split; [|split; [|split; split; reflexivity]].
  - intros H0. apply Hwrap in H0. rewrite H0 in *. cbn [Z.eqb Pos.eqb] in *.
    rewrite (Hport 1), (Hport 2), Hp1, Hp2 by lia.
    change (toggles LED_RED ([RdWav 91; WrOCR0A (wav_at 91);
                              Busy (pitchRate s * (SAMP + 1))]
                             ++ wrap_events (pitchRate s)))
      with (toggles LED_RED (wrap_events (pitchRate s))).
    change (toggles LED_GREEN ([RdWav 91; WrOCR0A (wav_at 91);
                                Busy (pitchRate s * (SAMP + 1))]
                               ++ wrap_events (pitchRate s)))
      with (toggles LED_GREEN (wrap_events (pitchRate s))).
    rewrite Hred, Hgreen, <- Hrs, <- Hgs.
    destruct (red_condition (pitchRate s)), (green_condition (pitchRate s));
      repeat split; intros; try congruence; try discriminate.
  - intros Hne.
    destruct (Z.eqb_spec (gumIndex s) 91) as [E|E];
      [apply Hwrap in E; contradiction|].
    split; [reflexivity|]. split; [reflexivity|].
    intros k Hk. apply Hport. lia.
Qed.

Lemma wraparound_toggles_red_and_green_witness :
  exists s' tr,
    step pitchTab 256 wrap_state = Done s'
    /\ trace (port s') = tr
    /\ gumIndex s' = 0
    /\ toggles LED_RED tr = 1%nat /\ toggles LED_GREEN tr = 1%nat.
Proof.
  destruct (wraparound_toggles_red_and_green pitchTab 256%nat wrap_state 0)
    as (s' & tr & Hstep & Htr & Hwrap & Hon & _);
    [ cbn; lia | reflexivity | cbn; lia
    | unfold gumballWavTabSize; cbn; lia | unfold is_uint8; cbn; lia | ].
  exists s', tr.
  assert (gumIndex s' = 0) as H0 by now apply Hwrap.
  destruct (Hon H0) as (Hred & _ & Hgreen & _).
  repeat split; trivial.
  - apply Hred. right. exists 1. reflexivity.
  - apply Hgreen. right. exists 2. reflexivity.
Defined.

(* ================================================================= *)
(** ** Projections of traces *)

Lemma ocr_writes_app a b : ocr_writes (a ++ b) = ocr_writes a ++ ocr_writes b.
Proof. apply flat_map_app. Qed.

Lemma wav_reads_app a b : wav_reads (a ++ b) = wav_reads a ++ wav_reads b.
Proof. apply flat_map_app. Qed.

Lemma pitch_reads_app a b :
  pitch_reads (a ++ b) = pitch_reads a ++ pitch_reads b.
Proof. apply flat_map_app. Qed.

Lemma toggles_app m a b : toggles m (a ++ b) = (toggles m a + toggles m b)%nat.
Proof. unfold toggles. now rewrite filter_app, length_app. Qed.

Lemma samples_app a b : samples (a ++ b) = samples a + samples b.
Proof. unfold samples. rewrite ocr_writes_app, length_app. lia. Qed.

Lemma busy_ticks_app a b : busy_ticks (a ++ b) = busy_ticks a + busy_ticks b.
Proof.
  induction a as [|e a IH]; [reflexivity|].
  cbn [app busy_ticks fold_right] in *. fold (busy_ticks (a ++ b)).
  fold (busy_ticks a). rewrite IH. destruct e; lia.
Qed.

Lemma wrap_events_ticks rate : busy_ticks (wrap_events rate) = 0.
Proof.
  unfold wrap_events.
  now destruct (red_condition rate), (green_condition rate).
Qed.

Lemma wrap_events_silent rate :
  ocr_writes (wrap_events rate) = []
  /\ wav_reads (wrap_events rate) = []
  /\ pitch_reads (wrap_events rate) = [].
Proof.
  unfold wrap_events.
  destruct (red_condition rate), (green_condition rate); repeat split.
Qed.

Lemma sample_events_projections g rate :
  ocr_writes (sample_events g rate) = [wav_at g]
  /\ wav_reads (sample_events g rate) = [g]
  /\ pitch_reads (sample_events g rate) = []
  /\ toggles LED_BLUE (sample_events g rate) = 0%nat.
Proof.
  unfold sample_events.
  rewrite ocr_writes_app, wav_reads_app, pitch_reads_app, toggles_app.
  destruct (wrap_events_silent rate) as (Ho & Hw & Hp).
  destruct (wrap_events_toggles rate) as (_ & _ & Hb).
  destruct (g =? 91); rewrite ?Ho, ?Hw, ?Hp, ?Hb; repeat split.
Qed.

Lemma sample_run_projections rate (l : list Z) :
  let tr := flat_map (fun g => sample_events g rate) l in
  ocr_writes tr = map wav_at l
  /\ wav_reads tr = l
  /\ pitch_reads tr = []
  /\ toggles LED_BLUE tr = 0%nat.
Proof.
  induction l as [|g l (IHo & IHw & IHp & IHb)]; cbn [flat_map];
    [repeat split|].
  rewrite ocr_writes_app, wav_reads_app, pitch_reads_app, toggles_app.
  destruct (sample_events_projections g rate) as (Ho & Hw & Hp & Hb).
  rewrite Ho, Hw, Hp, Hb, IHo, IHw, IHp, IHb. repeat split.
Qed.

Lemma wave_indices_S g k :
  wave_indices g (S k)
  = g mod gumballWavTabSize
      :: wave_indices ((g + 1) mod gumballWavTabSize) k.
Proof.
  unfold wave_indices. cbn [seq map]. f_equal.
  - f_equal. lia.
  - rewrite <- seq_shift, map_map. apply map_ext. intros t.
    rewrite Zplus_mod_idemp_l. f_equal. lia.
Qed.

Lemma wave_indices_length g k : length (wave_indices g k) = k.
Proof. unfold wave_indices. now rewrite length_map, length_seq. Qed.

(* ================================================================= *)
(** ** Runs of the sequencer *)

Lemma run_add tab dfuel (a b : nat) :
  forall s,
    run tab dfuel (a + b) s = (s' <- run tab dfuel a s ;; run tab dfuel b s').
Proof.
  induction a as [|a IH]; intros s; [reflexivity|].
  cbn [Nat.add run]. destruct (step tab dfuel s); cbn [bind]; auto.
Qed.

Section ForLoop.

Variable tab : list pitchElement.
Variable dfuel : nat.
Hypothesis dfuel_ok : 256 <= Z.of_nat dfuel.

(** [k] iterations of the [for] loop, from its test with counter [j]. *)
Lemma for_loop_runs (k : nat) :
  forall s j,
    pc s = AtSample j ->
    0 <= j ->
    j + Z.of_nat k <= pitchLen s ->
    is_uint16 (pitchLen s) ->
    0 <= gumIndex s < gumballWavTabSize ->
    is_uint8 (pitchRate s) ->
    exists h,
      run tab dfuel k s
      = Done (mkCPU (AtSample (j + Z.of_nat k))
                    ((gumIndex s + Z.of_nat k) mod gumballWavTabSize)
                    (pitchIndex s) (pitchRate s) (pitchLen s) h)
      /\ trace h = trace (port s)
                   ++ flat_map (fun g => sample_events g (pitchRate s))
                               (wave_indices (gumIndex s) k)
      /\ Z.testbit (PORTB h) 3 = Z.testbit (PORTB (port s)) 3.
Proof.
  induction k as [|k IH]; intros s j Hpc Hj Hk Hlen Hg Hr.
  - exists (port s). cbn [run]. rewrite !Z.add_0_r, Z.mod_small by assumption.
    split; [|split]; [| now rewrite app_nil_r | reflexivity].
    destruct s; cbn in *. now subst.
  - destruct (step_sample tab dfuel dfuel_ok s j Hpc ltac:(lia) Hg Hr)
      as (h1 & Hstep & Htr1 & Hport1 & _).
    cbn [run]. rewrite Hstep. cbn [bind].
    assert (wrap32 (j + 1) = j + 1) as Hw.
    { apply wrap32_small. unfold is_uint16, ULONG_MAX in *. lia. }
    rewrite Hw.
    edestruct (IH (mkCPU (AtSample (j + 1))
                         ((gumIndex s + 1) mod gumballWavTabSize)
                         (pitchIndex s) (pitchRate s) (pitchLen s) h1)
                  (j + 1)) as (h & Hrun & Htr & Hport);
      cbn [pc gumIndex pitchIndex pitchRate pitchLen port];
      try assumption; try lia; try reflexivity.
    { apply Z.mod_pos_bound. unfold gumballWavTabSize. lia. }
    exists h. rewrite Hrun.
    cbn [pc gumIndex pitchIndex pitchRate pitchLen port] in *.
    split; [|split].
    + f_equal. f_equal.
      * f_equal. lia.
      * rewrite Zplus_mod_idemp_l. f_equal. lia.
    + rewrite Htr, Htr1, wave_indices_S, <- app_assoc. cbn [flat_map].
      now rewrite (Z.mod_small (gumIndex s)) by assumption.
    + rewrite Hport, (Hport1 3) by lia.
      destruct (gumIndex s =? 91); [|reflexivity].
      apply wrap_LEDs_pins.
Qed.

End ForLoop.



(* ================================================================= *)
(** ** Well-formed pitch tables and the invariant of a pass *)

Lemma playable_spec e :
  playable e = true ->
  gumballPitch e <> 0 /\ is_uint8 (gumballPitch e)
  /\ is_uint16 (pitchDuration e).
Proof.
  unfold playable, is_uint8, is_uint16.
  rewrite !andb_true_iff, !Z.ltb_lt, Z.leb_le. lia.
Qed.

Section Pass.

Variables tab pre rest : list pitchElement.
Variable e0 : pitchElement.
Variable dfuel : nat.
Hypothesis tab_ok : table_ok tab pre e0 rest.
Hypothesis dfuel_ok : 256 <= Z.of_nat dfuel.

Variable n : Z.
Hypothesis n_def : n = Z.of_nat (length pre).

Lemma table_played (i : nat) :
  (i < length pre)%nat ->
  exists e, nth_error tab i = Some e /\ playable e = true.
Proof.
  destruct tab_ok as (-> & Hall & _ & _). intros Hi.
  rewrite nth_error_app1 by assumption.
  destruct (nth_error pre i) as [e|] eqn:E.
  - exists e. split; [reflexivity|].
    rewrite forallb_forall in Hall. eapply Hall, nth_error_In, E.
  - apply nth_error_None in E. lia.
Qed.

Lemma table_sentinel : nth_error tab (length pre) = Some e0.
Proof.
  destruct tab_ok as (-> & _).
  now rewrite nth_error_app2, Nat.sub_diag by lia.
Qed.

Lemma table_defined (i : nat) :
  (i <= length pre)%nat -> exists e, nth_error tab i = Some e.
Proof.
  intros Hi. destruct (Nat.eq_dec i (length pre)) as [->|Hne].
  - exists e0. apply table_sentinel.
  - destruct (table_played i ltac:(lia)) as (e & He & _). now exists e.
Qed.

Lemma table_bound : n <= 255.
Proof. destruct tab_ok as (_ & _ & _ & H). lia. Qed.

(** What is loaded at an index that is not the sentinel's. *)
Lemma loaded_played s :
  loaded tab s -> 0 <= pitchIndex s < n ->
  pitchRate s <> 0 /\ is_uint8 (pitchRate s) /\ is_uint16 (pitchLen s).
Proof.
  intros (e & He & -> & ->) Hi.
  destruct (table_played (Z.to_nat (pitchIndex s))) as (e' & He' & Hp);
    [lia|].
  rewrite He in He'. injection He' as <-. now apply playable_spec.
Qed.

Lemma loaded_sentinel s :
  loaded tab s -> pitchIndex s = n -> pitchRate s = 0.
Proof.
  intros (e & He & -> & _) Hi.
  rewrite Hi, n_def, Nat2Z.id, table_sentinel in He.
  destruct tab_ok as (_ & _ & H0 & _). now injection He as <-.
Qed.

(** Any state at the top of the outer loop starts a pass. *)
Lemma pass_start s :
  pc s = AtPass ->
  exists s1,
    step tab dfuel s = Done s1
    /\ pass_inv tab n s1
    /\ pc s1 = AtEntry /\ gumIndex s1 = 0 /\ pitchIndex s1 = 0
    /\ trace (port s1) = trace (port s) ++ [RdPitch 0; RdLen 0].
Proof.
  intros Hpc.
  destruct (table_defined 0) as (e & He); [lia|].
  rewrite (step_pass tab dfuel s e Hpc He).
  eexists. split; [reflexivity|]. unfold pass_inv.
  cbn [pc gumIndex pitchIndex pitchRate pitchLen port trace emit].
  rewrite <- app_assoc.
  repeat split; unfold gumballWavTabSize; try lia.
  exists e. cbn [pitchIndex pitchRate pitchLen]. auto.
Qed.

(** The invariant is kept by every transition; inside a pass the
    waveform index moves on by the number of samples written. *)
Lemma pass_inv_step s :
  pass_inv tab n s ->
  exists s',
    step tab dfuel s = Done s'
    /\ pass_inv tab n s'
    /\ (pc s <> AtPass ->
        gumIndex s'
        = (gumIndex s
           + (samples (trace (port s')) - samples (trace (port s))))
          mod gumballWavTabSize).
Proof.
  intros (Hg & Hi & Hpc).
  destruct (pc s) as [| |j] eqn:Epc.
  - destruct (pass_start s Epc) as (s1 & Hstep & Hinv & _).
    exists s1. split; [exact Hstep|]. split; [exact Hinv|].
    intros Hne. now contradiction Hne.
  - rewrite (step_entry tab dfuel s Epc).
    eexists. split; [reflexivity|]. unfold pass_inv.
    cbn [pc gumIndex pitchIndex pitchRate pitchLen port].
    split; [|intros _; rewrite Z.sub_diag, Z.add_0_r;
              symmetry; now apply Z.mod_small].
    split; [assumption|]. split; [assumption|].
    destruct (Z.eqb_spec (pitchRate s) 0) as [E0|Hne].
    + split; [|assumption].
      destruct (Z.eq_dec (pitchIndex s) n); [assumption|].
      destruct (loaded_played s Hpc) as (Hnz & _); [lia | contradiction].
    + assert (pitchIndex s < n) as Hlt.
      { destruct (Z.eq_dec (pitchIndex s) n) as [E|E]; [|lia].
        now rewrite (loaded_sentinel s Hpc E) in Hne. }
      destruct (loaded_played s Hpc) as (_ & _ & Hlen); [lia|].
      unfold is_uint16 in Hlen.
      split; [exact Hpc|]. lia.
  - destruct Hpc as (Hload & Hlt & Hj).
    destruct (loaded_played s Hload) as (Hnz & Hr & Hlen); [lia|].
    destruct (Z.lt_ge_cases j (pitchLen s)) as [Hjl|Hjl].
    + destruct (step_sample tab dfuel dfuel_ok s j Epc Hjl Hg Hr)
        as (h & Hstep & Htr & _).
      rewrite Hstep. eexists. split; [reflexivity|]. unfold pass_inv.
      cbn [pc gumIndex pitchIndex pitchRate pitchLen port].
      rewrite wrap32_small by (unfold is_uint16, ULONG_MAX in *; lia).
      split.
      * split; [apply Z.mod_pos_bound; unfold gumballWavTabSize; lia|].
        split; [lia|]. split; [exact Hload|]. lia.
      * intros _. rewrite Htr, samples_app.
        destruct (sample_events_projections (gumIndex s) (pitchRate s))
          as (Ho & _).
        unfold samples at 2. rewrite Ho. cbn [length]. f_equal. lia.
    + pose proof table_bound as Hn.
      assert (wrap8 (pitchIndex s + 1) = pitchIndex s + 1) as Hw
          by (apply wrap8_small; lia).
      destruct (table_defined (Z.to_nat (pitchIndex s + 1))) as (e & He);
        [lia|].
      rewrite (step_advance tab dfuel s j e Epc Hjl) by now rewrite Hw.
      eexists. split; [reflexivity|]. unfold pass_inv.
      cbn [pc gumIndex pitchIndex pitchRate pitchLen port].
      rewrite Hw. split.
      * split; [assumption|]. split; [lia|].
        exists e. cbn [pitchIndex pitchRate pitchLen]. auto.
      * intros _. unfold xor_PORTB, emit. cbn [trace].
        rewrite !samples_app.
        change (samples [RdPitch (pitchIndex s + 1)]) with 0.
        change (samples [RdLen (pitchIndex s + 1)]) with 0.
        change (samples [XorPORTB LED_BLUE]) with 0.
        replace (samples (trace (port s)) + 0 + 0 + 0
                 - samples (trace (port s))) with 0 by lia.
        rewrite Z.add_0_r. symmetry. now apply Z.mod_small.
Qed.

Lemma pass_inv_run (k : nat) :
  forall s,
    pass_inv tab n s ->
    exists s', run tab dfuel k s = Done s' /\ pass_inv tab n s'.
Proof.
  induction k as [|k IH]; intros s Hinv; [now exists s|].
  destruct (pass_inv_step s Hinv) as (s1 & Hstep & Hinv1 & _).
  destruct (IH s1 Hinv1) as (s' & Hrun & Hinv').
  exists s'. cbn [run]. rewrite Hstep. auto.
Qed.

Lemma reads_in_range_app a b :
  reads_in_range n a -> reads_in_range n b -> reads_in_range n (a ++ b).
Proof.
  intros (Hwa & Hpa) (Hwb & Hpb). unfold reads_in_range.
  rewrite wav_reads_app, pitch_reads_app.
  split; apply Forall_app; split; assumption.
Qed.

(** The reads of one transition. *)
Lemma pass_step_reads s s' :
  pass_inv tab n s ->
  step tab dfuel s = Done s' ->
  exists tr,
    trace (port s') = trace (port s) ++ tr /\ reads_in_range n tr.
Proof.
  intros (Hg & Hi & Hpc) Hstep.
  destruct (pc s) as [| |j] eqn:Epc.
  - destruct (pass_start s Epc) as (s1 & Hstep1 & _ & _ & _ & _ & Htr).
    rewrite Hstep in Hstep1. injection Hstep1 as <-.
    exists [RdPitch 0; RdLen 0]. split; [exact Htr|].
    split; cbn; repeat constructor; lia.
  - rewrite (step_entry tab dfuel s Epc) in Hstep. injection Hstep as <-.
    exists []. cbn [port]. rewrite app_nil_r.
    split; [reflexivity|]. split; constructor.
  - destruct Hpc as (Hload & Hlt & Hj).
    destruct (loaded_played s Hload) as (Hnz & Hr & Hlen); [lia|].
    destruct (Z.lt_ge_cases j (pitchLen s)) as [Hjl|Hjl].
    + destruct (step_sample tab dfuel dfuel_ok s j Epc Hjl Hg Hr)
        as (h & Hstep1 & Htr & _).
      rewrite Hstep in Hstep1. injection Hstep1 as ->.
      exists (sample_events (gumIndex s) (pitchRate s)).
      split; [exact Htr|].
      destruct (sample_events_projections (gumIndex s) (pitchRate s))
        as (_ & Hw & Hp & _).
      unfold reads_in_range. rewrite Hw, Hp.
      split; repeat constructor; lia.
    + pose proof table_bound as Hn.
      assert (wrap8 (pitchIndex s + 1) = pitchIndex s + 1) as Hw
          by (apply wrap8_small; lia).
      destruct (table_defined (Z.to_nat (pitchIndex s + 1))) as (e & He);
        [lia|].
      rewrite (step_advance tab dfuel s j e Epc Hjl) in Hstep
        by now rewrite Hw.
      injection Hstep as <-. rewrite Hw.
      exists [RdPitch (pitchIndex s + 1); RdLen (pitchIndex s + 1);
              XorPORTB LED_BLUE].
      unfold xor_PORTB, emit. cbn [port trace].
      rewrite <- !app_assoc. split; [reflexivity|].
      split; cbn; repeat constructor; lia.
Qed.

Lemma pass_run_reads (k : nat) :
  forall s s',
    pass_inv tab n s ->
    run tab dfuel k s = Done s' ->
    exists tr,
      trace (port s') = trace (port s) ++ tr /\ reads_in_range n tr.
Proof.
  induction k as [|k IH]; intros s s' Hinv Hrun.
  - injection Hrun as <-. exists []. rewrite app_nil_r.
    split; [reflexivity|]. split; constructor.
  - cbn [run] in Hrun.
    destruct (pass_inv_step s Hinv) as (s1 & Hstep & Hinv1 & _).
    rewrite Hstep in Hrun. cbn [bind] in Hrun.
    destruct (pass_step_reads s s1 Hinv Hstep) as (tr1 & Htr1 & Hr1).
    destruct (IH s1 s' Hinv1 Hrun) as (tr & Htr & Hr).
    exists (tr1 ++ tr). rewrite Htr, Htr1, <- app_assoc.
    split; [reflexivity|]. now apply reads_in_range_app.
Qed.

(** As long as the run stays in the pass, the waveform index is the
    number of samples written since the state [s], modulo the table
    size. *)
Lemma gumIndex_counts_samples (k : nat) :
  forall s,
    pass_inv tab n s ->
    stays_in_pass tab dfuel s k = true ->
    exists s',
      run tab dfuel k s = Done s'
      /\ gumIndex s'
         = (gumIndex s
            + (samples (trace (port s')) - samples (trace (port s))))
           mod gumballWavTabSize.
Proof.
  induction k as [|k IH]; intros s Hinv Hstay.
  - exists s. split; [reflexivity|].
    rewrite Z.sub_diag, Z.add_0_r. symmetry.
    apply Z.mod_small, Hinv.
  - unfold stays_in_pass in Hstay.
    rewrite seq_S, forallb_app, andb_true_iff in Hstay.
    destruct Hstay as (Hstay & Hlast). cbn in Hlast.
    destruct (IH s Hinv Hstay) as (sk & Hrun & Hcount).
    destruct (pass_inv_run k s Hinv) as (sk' & Hrun' & Hinvk).
    rewrite Hrun in Hrun'. injection Hrun' as <-.
    rewrite Hrun in Hlast. cbn in Hlast.
    assert (pc sk <> AtPass) as Hin
        by (destruct (pc sk); [discriminate Hlast | discriminate ..]).
    destruct (pass_inv_step sk Hinvk) as (s' & Hstep & _ & Hmove).
    exists s'. replace (S k) with (k + 1)%nat by lia.
    rewrite run_add, Hrun. cbn [bind run]. rewrite Hstep. cbn [bind].
    split; [reflexivity|].
    rewrite (Hmove Hin).
    rewrite Hcount, Zplus_mod_idemp_l. f_equal. lia.
Qed.

End Pass.

(** C2, as stated, fails: the waveform index is not in [0, 92) at every
    point of execution.  In the iteration of the [for] loop that plays the
    last sample of the table, [gumIndex++] makes the index 92, and it is
    92 at the comparison that follows, until the reset.  The firmware is
    at the start of that iteration 93 transitions after power-on (the
    start of the pass, the test of the middle loop and 91 samples). *)
Lemma index_leaves_range_before_reset :
  ~ (forall (n : nat) s j,
        run pitchTab 256 n power_on = Done s ->
        pc s = AtSample j ->
        j < pitchLen s ->
        0 <= index_after_increment s < 92).
Proof.
  intros H. specialize (H 93%nat).
  remember (run pitchTab 256 93 power_on) as r eqn:Hrun.
  vm_compute in Hrun. subst r.
  specialize (H _ 91 eq_refl eq_refl eq_refl).
  destruct H as [_ H]. vm_compute in H. discriminate H.
Qed.

(** C2, amended: from the start of a pass on, at every loop test reached
    after any number of transitions, the waveform index is in [0, 92) and
    the pitch index is between 0 and the index of the sentinel; every read
    of the waveform table and of the pitch table uses an index in these
    ranges; the pitch index equals the sentinel's only with the zero pitch
    loaded, at the test that ends the pass or after it.  As long as the
    run stays in the pass, the waveform index is the number of samples
    written in the pass modulo 92, so it is 0 exactly when that number is
    a multiple of 92.  Inside an iteration of the [for] loop, between
    [gumIndex++] and the reset, the index is in [1, 92], and it is 92
    exactly in the iteration that started with the index at 91. *)
Theorem cursor_stays_in_range tab pre e0 rest dfuel s0 :
  table_ok tab pre e0 rest ->
  256 <= Z.of_nat dfuel ->
  pc s0 = AtPass ->
  exists s1,
    step tab dfuel s0 = Done s1
    /\ forall k : nat,
        exists s,
          run tab dfuel k s1 = Done s
          /\ 0 <= gumIndex s < 92
          /\ 0 <= pitchIndex s <= Z.of_nat (length pre)
          /\ pitchIndex s < Z.of_nat (length tab)
          /\ (pitchIndex s = Z.of_nat (length pre) ->
              pitchRate s = 0 /\ (pc s = AtEntry \/ pc s = AtPass))
          /\ (exists tr,
                trace (port s) = trace (port s0) ++ tr
                /\ Forall (fun i => 0 <= i < 92) (wav_reads tr)
                /\ Forall (fun i => 0 <= i <= Z.of_nat (length pre))
                          (pitch_reads tr))
          /\ (stays_in_pass tab dfuel s1 k = true ->
              let emitted :=
                samples (trace (port s)) - samples (trace (port s0)) in
              gumIndex s = emitted mod 92
              /\ (gumIndex s = 0 <-> (92 | emitted)))
          /\ (forall j, pc s = AtSample j -> j < pitchLen s ->
                1 <= index_after_increment s <= 92
                /\ (index_after_increment s = 92 <-> gumIndex s = 91)).
Proof.
  intros Hok Hf Hpc.
  destruct (pass_start tab pre rest e0 dfuel Hok _ eq_refl s0 Hpc)
    as (s1 & Hstep & Hinv1 & _ & Hg1 & _ & Htr1).
  exists s1. split; [exact Hstep|]. intros k.
  destruct (pass_inv_run tab pre rest e0 dfuel Hok Hf _ eq_refl k s1 Hinv1)
    as (s & Hrun & (Hg & Hi & Hat)).
  exists s. split; [exact Hrun|].
  split; [exact Hg|]. split; [exact Hi|].
  split; [|split; [|split; [|split]]].
  - destruct Hok as (-> & _). rewrite length_app. cbn [length]. lia.
  - intros Hn. destruct (pc s) as [| |j].
    + split; [apply Hat | now right].
    + split; [|now left].
      eapply loaded_sentinel; eauto.
    + lia.
  - destruct (pass_run_reads tab pre rest e0 dfuel Hok Hf _ eq_refl k s1 s
                Hinv1 Hrun) as (tr & Htr & Hwav & Hpitch).
    exists ([RdPitch 0; RdLen 0] ++ tr).
    rewrite Htr, Htr1, <- app_assoc. split; [reflexivity|].
    rewrite wav_reads_app, pitch_reads_app.
    split; [exact Hwav|].
    cbn [pitch_reads flat_map app]. constructor; [lia | exact Hpitch].
  - intros Hstay emitted.
    destruct (gumIndex_counts_samples tab pre rest e0 dfuel Hok Hf _ eq_refl
                k s1 Hinv1 Hstay) as (s' & Hrun' & Hcount).
    rewrite Hrun in Hrun'. injection Hrun' as <-.
    assert (gumIndex s = emitted mod 92) as Hmod.
    { rewrite Hcount, Hg1, Htr1, (samples_app (trace (port s0))).
      unfold emitted. cbn [Z.add]. f_equal.
      change (samples [RdPitch 0; RdLen 0]) with 0. lia. }
    split; [exact Hmod|].
    rewrite Hmod. apply Z.mod_divide. lia.
  - intros j _ _. unfold index_after_increment, gumballWavTabSize in *.
    rewrite wrap8_small by lia. lia.
Qed.

Lemma cursor_stays_in_range_witness :
  exists s1 s,
    step pitchTab 256 power_on = Done s1
    /\ run pitchTab 256 6 s1 = Done s
    /\ 0 <= gumIndex s < 92
    /\ 0 <= pitchIndex s <= 72
    /\ gumIndex s = (samples (trace (port s)) - 0) mod 92.
Proof.
  destruct (cursor_stays_in_range pitchTab (firstn 72 pitchTab) (mkPitch 0 0)
              [] 256%nat power_on) as (s1 & Hstep & Hall);
    [ repeat split; cbn; lia | cbn; lia | reflexivity | ].
  destruct (Hall 6%nat) as (s & Hrun & Hg & Hi & _ & _ & _ & Hin & _).
  exists s1, s.
  split; [exact Hstep|]. split; [exact Hrun|]. split; [exact Hg|].
  split; [exact Hi|].
  apply Hin.
  vm_compute in Hstep. injection Hstep as <-.
  vm_compute. reflexivity.
Defined.

(* ================================================================= *)
(** ** Playing the entries of a pass *)

Lemma blue_pin p :
  Z.testbit (Z.lxor p LED_BLUE) 3 = negb (Z.testbit p 3).
Proof.
  rewrite Z.lxor_spec. change (Z.testbit LED_BLUE 3) with true.
  now destruct (Z.testbit p 3).
Qed.

Section Entries.

Variable tab : list pitchElement.
Variable dfuel : nat.
Hypothesis dfuel_ok : 256 <= Z.of_nat dfuel.

(** One turn of the middle loop. *)
Lemma play_entry s e' :
  pc s = AtEntry ->
  pitchRate s <> 0 ->
  is_uint8 (pitchRate s) ->
  is_uint16 (pitchLen s) ->
  0 <= gumIndex s < gumballWavTabSize ->
  0 <= pitchIndex s < 255 ->
  nth_error tab (Z.to_nat (pitchIndex s + 1)) = Some e' ->
  exists h,
    run tab dfuel (S (S (Z.to_nat (pitchLen s)))) s
    = Done (mkCPU AtEntry
                  ((gumIndex s + pitchLen s) mod gumballWavTabSize)
                  (pitchIndex s + 1) (gumballPitch e') (pitchDuration e') h)
    /\ trace h
       = trace (port s)
         ++ flat_map (fun g => sample_events g (pitchRate s))
                     (wave_indices (gumIndex s) (Z.to_nat (pitchLen s)))
         ++ [ RdPitch (pitchIndex s + 1); RdLen (pitchIndex s + 1);
              XorPORTB LED_BLUE ]
    /\ Z.testbit (PORTB h) 3 = negb (Z.testbit (PORTB (port s)) 3).
Proof.
  intros Hpc Hnz Hr Hlen Hg Hi He.
  assert (0 <= pitchLen s) as Hl0 by apply Hlen.
  replace (S (S (Z.to_nat (pitchLen s))))
    with (S (Z.to_nat (pitchLen s) + 1)) by lia.
  cbn [run]. rewrite (step_entry tab dfuel s Hpc).
  destruct (Z.eqb_spec (pitchRate s) 0); [contradiction|]. cbn [bind].
  edestruct (for_loop_runs tab dfuel dfuel_ok (Z.to_nat (pitchLen s))
               (mkCPU (AtSample 0) (gumIndex s) (pitchIndex s)
                      (pitchRate s) (pitchLen s) (port s)) 0)
    as (h & Hrun & Htr & Hport);
    cbn [pc gumIndex pitchIndex pitchRate pitchLen port];
    try assumption; try lia; try reflexivity.
  cbn [pc gumIndex pitchIndex pitchRate pitchLen port] in *.
  rewrite run_add, Hrun. cbn [bind run].
  rewrite Z2Nat.id by assumption.
  assert (wrap8 (pitchIndex s + 1) = pitchIndex s + 1) as Hw
      by (apply wrap8_small; lia).
  erewrite step_advance;
    cbn [pc gumIndex pitchIndex pitchRate pitchLen port];
    [| reflexivity | lia | rewrite Hw; exact He].
  cbn [bind]. rewrite Hw. eexists. split; [reflexivity|].
  unfold xor_PORTB, emit. cbn [trace PORTB].
  rewrite Htr, blue_pin, Hport, <- !app_assoc. split; reflexivity.
Qed.

End Entries.

Section WholePass.

Variables tab rest : list pitchElement.
Variable e0 : pitchElement.
Variable dfuel : nat.
Hypothesis dfuel_ok : 256 <= Z.of_nat dfuel.

Lemma next_entry (played todo : list pitchElement) (e : pitchElement) :
  tab = played ++ (e :: todo) ++ e0 :: rest ->
  nth_error tab (S (length played)) = Some (hd e0 todo)
  /\ tab = (played ++ [e]) ++ todo ++ e0 :: rest.
Proof.
  intros ->. split.
  - rewrite nth_error_app2 by lia.
    replace (S (length played) - length played)%nat with 1%nat by lia.
    now destruct todo.
  - now rewrite <- app_assoc.
Qed.

(** The turns of the middle loop for the entries [todo]. *)
Lemma play_entries (todo : list pitchElement) :
  forall played s,
    tab = played ++ todo ++ e0 :: rest ->
    forallb playable todo = true ->
    (length played + length todo <= 255)%nat ->
    pc s = AtEntry ->
    pitchIndex s = Z.of_nat (length played) ->
    pitchRate s = gumballPitch (hd e0 todo) ->
    pitchLen s = pitchDuration (hd e0 todo) ->
    0 <= gumIndex s < gumballWavTabSize ->
    exists s' tr,
      run tab dfuel (entries_steps todo) s = Done s'
      /\ pc s' = AtEntry
      /\ pitchIndex s' = Z.of_nat (length played + length todo)
      /\ pitchRate s' = gumballPitch e0
      /\ gumIndex s'
         = (gumIndex s + total_duration todo) mod gumballWavTabSize
      /\ trace (port s') = trace (port s) ++ tr
      /\ samples tr = total_duration todo
      /\ toggles LED_BLUE tr = length todo
      /\ pitch_reads tr
         = map Z.of_nat (seq (S (length played)) (length todo)).
Proof.
  induction todo as [|e todo IH];
    intros played s Htab Hall Hlen Hpc Hi Hrate Hdur Hg.
  - exists s, []. cbn [entries_steps fold_right run length seq map hd] in *.
    rewrite Nat.add_0_r, app_nil_r, Z.add_0_r, Z.mod_small by assumption.
    repeat split; assumption.
  - cbn [hd forallb length] in *. apply andb_true_iff in Hall.
    destruct Hall as (Hplay & Hall).
    destruct (playable_spec e Hplay) as (Hnz & Hr & Hd).
    destruct (next_entry played todo e Htab) as (Hnext & Htab').
    rewrite <- Hrate in Hnz, Hr. rewrite <- Hdur in Hd.
    destruct (play_entry tab dfuel dfuel_ok s (hd e0 todo) Hpc Hnz Hr Hd Hg)
      as (h & Hrun & Htr & _);
      [lia | rewrite Hi; rewrite <- Hnext; f_equal; lia |].
    edestruct (IH (played ++ [e])
                  (mkCPU AtEntry
                     ((gumIndex s + pitchLen s) mod gumballWavTabSize)
                     (pitchIndex s + 1) (gumballPitch (hd e0 todo))
                     (pitchDuration (hd e0 todo)) h))
      as (s' & tr' & Hrun' & Hpc' & Hi' & Hrate' & Hg' & Htr' & Hs' & Hb'
          & Hp');
      cbn [pc gumIndex pitchIndex pitchRate pitchLen port];
      try assumption; try reflexivity;
      rewrite ?length_app; cbn [length]; try lia.
    { apply Z.mod_pos_bound. unfold gumballWavTabSize. lia. }
    cbn [pc gumIndex pitchIndex pitchRate pitchLen port] in *.
    destruct (sample_run_projections (pitchRate s)
                (wave_indices (gumIndex s) (Z.to_nat (pitchLen s))))
      as (Ho & _ & Hp & Hb).
    eexists s', _.
    cbn [entries_steps total_duration fold_right].
    fold (entries_steps todo). fold (total_duration todo).
    rewrite <- Hdur, run_add, Hrun. cbn [bind].
    split; [exact Hrun'|]. split; [exact Hpc'|].
    split; [rewrite Hi', length_app; cbn [length]; lia|].
    split; [exact Hrate'|].
    split; [rewrite Hg', Zplus_mod_idemp_l; f_equal; lia|].
    split; [rewrite Htr', Htr, <- !app_assoc; reflexivity|].
    rewrite !samples_app, !toggles_app, !pitch_reads_app, Hs', Hb', Hp', Hp, Hb.
    unfold samples at 1. rewrite Ho, length_map, wave_indices_length.
    rewrite length_app. cbn [length].
    replace (length played + 1)%nat with (S (length played)) by lia.
    unfold is_uint16 in Hd.
    repeat split; cbn; try lia.
    f_equal. lia.
Qed.

End WholePass.

(* ================================================================= *)
(** ** The blue LED and the end of a pass *)

(** C4, as stated, fails in its last part: in the run of the table
    {(100,5),(50,3),(0,0)} the first toggle of the blue LED does not come
    before the read of entry 1, it comes after it. *)
Lemma blue_toggle_not_before_next_read :
  ~ exists s' b r,
      run demoTab 256 8 power_on = Done s'
      /\ first_index is_blue_toggle (trace (port s')) = Some b
      /\ first_index (is_pitch_read 1) (trace (port s')) = Some r
      /\ (b < r)%nat.
Proof.
  intros (s' & b & r & Hrun & Hb & Hr & Hlt).
  vm_compute in Hrun. injection Hrun as <-.
  vm_compute in Hb, Hr.
  injection Hb as <-. injection Hr as <-. lia.
Qed.

(** C4, amended: a turn of the middle loop for an entry with a nonzero
    pitch, whatever its pitch and duration, toggles the blue LED exactly
    once.  The toggle is the last action of the turn: it comes after all
    the samples of the entry, and after the pitch index has moved on and
    the next entry has been read. *)
Theorem blue_toggles_once_after_entry tab dfuel s e' :
  256 <= Z.of_nat dfuel ->
  pc s = AtEntry ->
  pitchRate s <> 0 ->
  is_uint8 (pitchRate s) ->
  is_uint16 (pitchLen s) ->
  0 <= gumIndex s < gumballWavTabSize ->
  0 <= pitchIndex s < 255 ->
  nth_error tab (Z.to_nat (pitchIndex s + 1)) = Some e' ->
  exists s' tr,
    run tab dfuel (S (S (Z.to_nat (pitchLen s)))) s = Done s'
    /\ pc s' = AtEntry
    /\ pitchIndex s' = pitchIndex s + 1
    /\ pitchRate s' = gumballPitch e'
    /\ pitchLen s' = pitchDuration e'
    /\ trace (port s')
       = trace (port s) ++ tr
         ++ [ RdPitch (pitchIndex s + 1); RdLen (pitchIndex s + 1);
              XorPORTB LED_BLUE ]
    /\ samples tr = pitchLen s
    /\ toggles LED_BLUE tr = 0%nat
    /\ pitch_reads tr = []
    /\ toggles LED_BLUE
         (tr ++ [ RdPitch (pitchIndex s + 1); RdLen (pitchIndex s + 1);
                  XorPORTB LED_BLUE ]) = 1%nat
    /\ Z.testbit (PORTB (port s')) 3 = negb (Z.testbit (PORTB (port s)) 3).
Proof.
  intros Hf Hpc Hnz Hr Hlen Hg Hi He.
  destruct (play_entry tab dfuel Hf s e' Hpc Hnz Hr Hlen Hg Hi He)
    as (h & Hrun & Htr & Hport).
  destruct (sample_run_projections (pitchRate s)
              (wave_indices (gumIndex s) (Z.to_nat (pitchLen s))))
    as (Ho & _ & Hp & Hb).
  eexists. eexists. split; [exact Hrun|].
  cbn [pc gumIndex pitchIndex pitchRate pitchLen port].
  do 4 (split; [reflexivity|]).
  split; [exact Htr|].
  split; [|split; [exact Hb|split; [exact Hp|split; [|exact Hport]]]].
  - unfold samples. rewrite Ho, length_map, wave_indices_length.
    unfold is_uint16 in Hlen. lia.
  - rewrite toggles_app, Hb. reflexivity.
Qed.

Lemma blue_toggles_once_after_entry_witness :
  exists s' tr,
    run pitchTab 256 282 entry_state = Done s'
    /\ pc s' = AtEntry
    /\ pitchIndex s' = 1
    /\ pitchRate s' = 150
    /\ pitchLen s' = 250
    /\ trace (port s') = [] ++ tr ++ [RdPitch 1; RdLen 1; XorPORTB LED_BLUE]
    /\ samples tr = 280
    /\ toggles LED_BLUE tr = 0%nat
    /\ pitch_reads tr = []
    /\ toggles LED_BLUE (tr ++ [RdPitch 1; RdLen 1; XorPORTB LED_BLUE]) = 1%nat
    /\ Z.testbit (PORTB (port s')) 3 = negb (Z.testbit 0 3).
Proof.
  apply (blue_toggles_once_after_entry pitchTab 256%nat entry_state
           (mkPitch 150 250));
    [ cbn; lia | reflexivity | cbn; congruence
    | unfold is_uint8; cbn; lia | unfold is_uint16; cbn; lia
    | unfold gumballWavTabSize; cbn; lia | cbn; lia | reflexivity ].
Defined.

Lemma first_entry tab pre e0 rest :
  table_ok tab pre e0 rest -> nth_error tab 0 = Some (hd e0 pre).
Proof. intros (-> & _). now destruct pre. Qed.

(** C5: a pass ends at the first entry with pitch 0.  From the top of the
    outer loop the run reads the entries 0 to the index of that entry and
    no other, plays every entry before it for its duration, toggles the
    blue LED once per played entry, and is back at the top of the outer
    loop; the next transition starts the next pass with both indices 0.
    For the table {(100,5),(50,3),(0,0)} the pass writes 5 samples,
    toggles the blue LED, writes 3 samples and toggles the blue LED. *)
Theorem pass_ends_at_first_zero_pitch :
  (forall tab pre e0 rest dfuel s0,
      table_ok tab pre e0 rest ->
      256 <= Z.of_nat dfuel ->
      pc s0 = AtPass ->
      exists s' tr s'',
        run tab dfuel (S (entries_steps pre + 1)) s0 = Done s'
        /\ pc s' = AtPass
        /\ pitchIndex s' = Z.of_nat (length pre)
        /\ trace (port s') = trace (port s0) ++ tr
        /\ pitch_reads tr = map Z.of_nat (seq 0 (S (length pre)))
        /\ samples tr = total_duration pre
        /\ toggles LED_BLUE tr = length pre
        /\ step tab dfuel s' = Done s''
        /\ pc s'' = AtEntry /\ gumIndex s'' = 0 /\ pitchIndex s'' = 0)
  /\ (exists s',
        run demoTab 256 14 power_on = Done s'
        /\ pc s' = AtPass
        /\ samples (trace (port s')) = 8
        /\ beats (trace (port s'))
           = [ WrOCR0A 0x8a; WrOCR0A 0xb1; WrOCR0A 0x55; WrOCR0A 0x4d;
               WrOCR0A 0xb2; XorPORTB LED_BLUE;
               WrOCR0A 0x90; WrOCR0A 0x43; WrOCR0A 0x8f; XorPORTB LED_BLUE ]).
Proof.
  split.
  - intros tab pre e0 rest dfuel s0 Hok Hf Hpc.
    destruct (pass_start tab pre rest e0 dfuel Hok _ eq_refl s0 Hpc)
      as (s1 & Hstep & (Hg1 & _ & Hat) & Hpc1 & _ & Hi1 & Htr1).
    rewrite Hpc1 in Hat. destruct Hat as (e & He & Hrate & Hdur).
    rewrite Hi1 in He. change (Z.to_nat 0) with 0%nat in He.
    rewrite (first_entry tab pre e0 rest Hok) in He. injection He as <-.
    pose proof Hok as (Htab & Hall & Hzero & Hlen).
    destruct (play_entries tab rest e0 dfuel Hf pre [] s1)
      as (s2 & tr & Hrun & Hpc2 & Hi2 & Hrate2 & Hg2 & Htr2 & Hs & Hb & Hp);
      try assumption; cbn [length]; try lia.
    cbn [length Nat.add] in *.
    assert (step tab dfuel s2
            = Done (mkCPU AtPass (gumIndex s2) (pitchIndex s2) (pitchRate s2)
                          (pitchLen s2) (port s2))) as Hexit.
    { rewrite (step_entry tab dfuel s2 Hpc2), Hrate2, Hzero. reflexivity. }
    destruct (pass_start tab pre rest e0 dfuel Hok _ eq_refl
                (mkCPU AtPass (gumIndex s2) (pitchIndex s2) (pitchRate s2)
                       (pitchLen s2) (port s2)) eq_refl)
      as (s3 & Hstep3 & _ & Hpc3 & Hg3 & Hi3 & _).
    eexists. exists ([RdPitch 0; RdLen 0] ++ tr). exists s3.
    cbn [run]. rewrite Hstep. cbn [bind].
    rewrite run_add, Hrun. cbn [bind run]. rewrite Hexit. cbn [bind].
    split; [reflexivity|].
    cbn [pc gumIndex pitchIndex pitchRate pitchLen port].
    split; [reflexivity|]. split; [exact Hi2|].
    split; [rewrite Htr2, Htr1, <- app_assoc; reflexivity|].
    rewrite pitch_reads_app, samples_app, toggles_app, Hp, Hs, Hb.
    repeat split; assumption.
  - eexists. split; [vm_compute; reflexivity|]. repeat split.
Qed.

Lemma pass_ends_at_first_zero_pitch_witness :
  exists s' tr s'',
    run demoTab 256 14 power_on = Done s'
    /\ pc s' = AtPass
    /\ pitchIndex s' = 2
    /\ trace (port s') = [] ++ tr
    /\ pitch_reads tr = [0; 1; 2]
    /\ samples tr = 5 + (3 + 0)
    /\ toggles LED_BLUE tr = 2%nat
    /\ step demoTab 256 s' = Done s''
    /\ pc s'' = AtEntry /\ gumIndex s'' = 0 /\ pitchIndex s'' = 0.
Proof.
  destruct pass_ends_at_first_zero_pitch as (Hpass & _).
  apply (Hpass demoTab [mkPitch 100 5; mkPitch 50 3] (mkPitch 0 0) []
               256%nat power_on);
    [ repeat split; cbn; lia | cbn; lia | reflexivity ].
Defined.

(** X12: when more periods fit than the 16-bit [int] counter of
    [blink_LEDs] can count (more than 32767), the call does not end with
    the loop test: it ends in the signed overflow of [i++], once the
    counter has reached the largest [int]. *)
Lemma blink_LEDs_counter_overflow fuel duration onTime offTime h :
  is_ulong onTime -> is_ulong offTime ->
  wrap32 (onTime + offTime) <> 0 ->
  INT_MAX < duration / wrap32 (onTime + offTime) ->
  INT_MAX < Z.of_nat fuel ->
  onTime < Z.of_nat fuel -> offTime < Z.of_nat fuel ->
  blink_LEDs fuel duration onTime offTime h = Fault SignedOverflow.
Proof.
  intros Hon Hoff Hp Hq Hf Hfon Hfoff. unfold blink_LEDs.
  apply (blink_for_counter_overflow duration onTime offTime fuel _ _
           eq_refl eq_refl Hon Hoff Hp Hfon Hfoff
           ltac:(unfold TENTH_MS, INT_MAX in *; lia) (Z.to_nat INT_MAX));
    unfold INT_MAX in *; lia.
Qed.

(* ================================================================= *)
(** ** The binary literals and the start of [main] *)

(** X1: [B8] turns every literal of eight binary digits, read by [HEX__]
    as a hexadecimal number, into the byte with these binary digits; and
    whatever its argument, the result is a byte. *)
Theorem B8_reads_binary_literal (b7 b6 b5 b4 b3 b2 b1 b0 : bool) :
  B8 (hex_reading b7 b6 b5 b4 b3 b2 b1 b0)
  = binary_value b7 b6 b5 b4 b3 b2 b1 b0
  /\ forall x, is_uint8 (B8 x).
Proof.
  split.
  - destruct b7, b6, b5, b4, b3, b2, b1, b0; reflexivity.
  - intros x. unfold is_uint8, B8, wrap8, wrap.
    apply Z.mod_pos_bound. lia.
Qed.

Lemma BV_byte b : 0 <= b < 8 -> is_uint8 (_BV b).
Proof.
  intros Hb. unfold _BV, is_uint8. rewrite Z.shiftl_1_l.
  split; [apply Z.pow_nonneg; lia | apply Z.pow_lt_mono_r; lia].
Qed.

Lemma BV_bit b k : 0 <= b -> Z.testbit (_BV b) k = (b =? k).
Proof.
  intros Hb. unfold _BV. rewrite Z.shiftl_1_l.
  now apply Z.pow2_bits_eqb.
Qed.

Lemma lor_byte a b : is_uint8 a -> is_uint8 b -> is_uint8 (Z.lor a b).
Proof.
  unfold is_uint8. intros Ha Hb.
  assert (Z.lor a b = Z.lor a b mod 2 ^ 8) as ->.
  { rewrite <- !Z.land_ones, Z.land_lor_distr_l, !Z.land_ones by lia.
    now rewrite !Z.mod_small by assumption. }
  apply Z.mod_pos_bound. lia.
Qed.

Lemma or_reg_spec reg mask :
  is_uint8 reg -> is_uint8 mask ->
  or_reg reg mask = Z.lor reg mask /\ is_uint8 (or_reg reg mask).
Proof.
  intros Hr Hm. pose proof (lor_byte reg mask Hr Hm) as Hb.
  unfold or_reg. rewrite wrap8_small by exact Hb. now split.
Qed.

(** X2: the assignments before the loops only set bits.  In DDRB they set
    the bits PB0, PB1, PB2 and PB3 (the PWM pin and the three LED pins
    become outputs), in TCCR0A the bits COM0A1, WGM01 and WGM00, in TCCR0B
    the bit CS00; every other bit of the three registers keeps its value,
    and the registers stay bytes. *)
Theorem main_setup_only_sets_bits nm r :
  names_ok nm ->
  is_uint8 (DDRB r) -> is_uint8 (TCCR0A r) -> is_uint8 (TCCR0B r) ->
  (forall k,
      Z.testbit (DDRB (main_setup nm r)) k
      = Z.testbit (DDRB r) k
        || (PB0 nm =? k) || (PB1 nm =? k) || (PB2 nm =? k) || (PB3 nm =? k))
  /\ (forall k,
        Z.testbit (TCCR0A (main_setup nm r)) k
        = Z.testbit (TCCR0A r) k
          || (COM0A1 nm =? k) || (WGM01 nm =? k) || (WGM00 nm =? k))
  /\ (forall k,
        Z.testbit (TCCR0B (main_setup nm r)) k
        = Z.testbit (TCCR0B r) k || (CS00 nm =? k))
  /\ is_uint8 (DDRB (main_setup nm r))
  /\ is_uint8 (TCCR0A (main_setup nm r))
  /\ is_uint8 (TCCR0B (main_setup nm r)).
Proof.
  intros Hnm Hd Ha Hb. unfold names_ok in Hnm.
  repeat match goal with
         | H : Forall _ (_ :: _) |- _ =>
             let Hh := fresh "Hbit" in
             apply Forall_cons_iff in H; destruct H as (Hh & H)
         end.
  unfold main_setup. cbn [DDRB TCCR0A TCCR0B].
  pose proof (BV_byte _ Hbit) as B0.  pose proof (BV_byte _ Hbit0) as B1.
  pose proof (BV_byte _ Hbit1) as B2. pose proof (BV_byte _ Hbit2) as B3.
  pose proof (BV_byte _ Hbit3) as BC. pose proof (BV_byte _ Hbit4) as BW1.
  pose proof (BV_byte _ Hbit5) as BW0. pose proof (BV_byte _ Hbit6) as BS.
  destruct (or_reg_spec (DDRB r) (_BV (PB0 nm)) Hd B0) as (E1 & U1).
  destruct (or_reg_spec (TCCR0A r) (_BV (COM0A1 nm)) Ha BC) as (E2 & U2).
  destruct (or_reg_spec (or_reg (TCCR0A r) (_BV (COM0A1 nm)))
              (Z.lor (_BV (WGM01 nm)) (_BV (WGM00 nm))) U2
              (lor_byte _ _ BW1 BW0)) as (E3 & U3).
  destruct (or_reg_spec (TCCR0B r) (_BV (CS00 nm)) Hb BS) as (E4 & U4).
  destruct (or_reg_spec (or_reg (DDRB r) (_BV (PB0 nm)))
              (Z.lor (Z.lor (_BV (PB1 nm)) (_BV (PB2 nm))) (_BV (PB3 nm))) U1
              (lor_byte _ _ (lor_byte _ _ B1 B2) B3)) as (E5 & U5).
  split; [|split; [|split; [|split; [|split]]]]; try assumption; intros k.
  - rewrite E5, E1, !Z.lor_spec, !BV_bit by lia.
    now rewrite !orb_assoc.
  - rewrite E3, E2, !Z.lor_spec, !BV_bit by lia.
    now rewrite !orb_assoc.
  - rewrite E4, !Z.lor_spec, !BV_bit by lia. reflexivity.
Qed.

Lemma main_setup_only_sets_bits_witness :
  (forall k,
      Z.testbit (DDRB (main_setup attiny13a (mkRegs 0 0 0))) k
      = Z.testbit 0 k || (0 =? k) || (1 =? k) || (2 =? k) || (3 =? k))
  /\ (forall k,
        Z.testbit (TCCR0A (main_setup attiny13a (mkRegs 0 0 0))) k
        = Z.testbit 0 k || (7 =? k) || (1 =? k) || (0 =? k))
  /\ (forall k,
        Z.testbit (TCCR0B (main_setup attiny13a (mkRegs 0 0 0))) k
        = Z.testbit 0 k || (0 =? k))
  /\ is_uint8 (DDRB (main_setup attiny13a (mkRegs 0 0 0)))
  /\ is_uint8 (TCCR0A (main_setup attiny13a (mkRegs 0 0 0)))
  /\ is_uint8 (TCCR0B (main_setup attiny13a (mkRegs 0 0 0))).
Proof.
  apply (main_setup_only_sets_bits attiny13a (mkRegs 0 0 0));
    [ unfold names_ok; repeat constructor; cbn; lia
    | unfold is_uint8; cbn; lia .. ].
Defined.

(** X3: the green test is the test for a multiple of 10, the red test the
    test for a multiple of 50 or of 20, and a pitch that passes the red
    test passes the green one: at a waveform wraparound the red LED never
    toggles without the green LED. *)
Theorem led_conditions_overlap rate :
  (green_condition rate = true <-> (10 | rate))
  /\ (red_condition rate = true <-> ((50 | rate) \/ (20 | rate)))
  /\ (red_condition rate = true -> green_condition rate = true)
  /\ (forall h,
        exists tr,
          trace (wrap_LEDs rate h) = trace h ++ tr
          /\ (toggles LED_RED tr <= toggles LED_GREEN tr)%nat).
Proof.
  assert (green_condition rate = true <-> (10 | rate)) as Hgreen.
  { rewrite green_condition_spec. split; [|now right].
    intros [[k ->]|H]; [exists (4 * k); lia | exact H]. }
  assert (red_condition rate = true -> green_condition rate = true) as Himp.
  { rewrite red_condition_spec, Hgreen.
    intros [[k ->]|[k ->]]; [exists (5 * k) | exists (2 * k)]; lia. }
  split; [exact Hgreen|]. split; [apply red_condition_spec|].
  split; [exact Himp|].
  intros h. exists (wrap_events rate). split; [apply wrap_LEDs_trace|].
  destruct (wrap_events_toggles rate) as (-> & -> & _).
  destruct (red_condition rate); [rewrite Himp by reflexivity|];
    destruct (green_condition rate); lia.
Qed.

(* ================================================================= *)
(** ** What no run of the sequencer does *)

Lemma xor_other_pin p b k :
  0 <= b -> k <> b -> Z.testbit (Z.lxor p (2 ^ b)) k = Z.testbit p k.
Proof.
  intros Hb Hk. rewrite Z.lxor_spec, Z.pow2_bits_eqb by assumption.
  destruct (Z.eqb_spec b k); [congruence|]. apply xorb_false_r.
Qed.

Lemma wrap_LEDs_frame rate h k :
  not_led_pin k ->
  Z.testbit (PORTB (wrap_LEDs rate h)) k = Z.testbit (PORTB h) k.
Proof.
  intros (H1 & H2 & _). rewrite wrap_LEDs_port.
  change LED_RED with (2 ^ 2). change LED_GREEN with (2 ^ 1).
  destruct (red_condition rate), (green_condition rate);
    rewrite ?Z.lxor_0_r, ?xor_other_pin by lia; reflexivity.
Qed.

Lemma wav_bytes v : In v gumballWavTab -> is_uint8 v.
Proof.
  assert (forallb (fun v => (0 <=? v) && (v <? 2 ^ 8)) gumballWavTab = true)
    as Hall by reflexivity.
  rewrite forallb_forall in Hall. intros Hin.
  specialize (Hall v Hin). unfold is_uint8.
  apply andb_true_iff in Hall. lia.
Qed.

(** One transition writes to OCR0A only values of the waveform table and
    changes no bit of PORTB besides the LED pins and PB5, the pin that
    the ticks of its delay toggle. *)
Lemma step_frame tab dfuel s s' :
  step tab dfuel s = Done s' ->
  exists tr,
    trace (port s') = trace (port s) ++ tr
    /\ (forall k, not_led_pin k -> k <> 5 ->
          Z.testbit (PORTB (port s')) k = Z.testbit (PORTB (port s)) k)
    /\ Z.testbit (PORTB (port s')) 5
       = xorb (Z.testbit (PORTB (port s)) 5) (Z.odd (busy_ticks tr))
    /\ Forall (fun v => In v gumballWavTab) (ocr_writes tr).
Proof.
  unfold step. destruct (pc s) as [| |j].
  - unfold load_entry. destruct (nth_error tab _) as [e|]; [|discriminate].
    cbn [bind]. intros [= <-]. cbn [port PORTB emit trace].
    exists [RdPitch 0; RdLen 0].
    rewrite <- app_assoc. split; [reflexivity|]. split; [reflexivity|].
    split; [now rewrite xorb_false_r | constructor].
  - destruct (negb _); intros [= <-]; cbn [port];
      exists []; rewrite app_nil_r;
      (split; [reflexivity|]); (split; [reflexivity|]);
      (split; [now rewrite xorb_false_r | constructor]).
  - destruct (j <? pitchLen s).
    + unfold play_sample.
      destruct (nth_error gumballWavTab _) as [v|] eqn:Ev; [|discriminate].
      cbn [bind].
      destruct (busy dfuel (pitchRate s) SAMP _) as [h2| |] eqn:Eb;
        [|discriminate ..].
      apply busy_port in Eb. destruct Eb as (t & Ht & Htr & _ & Hbits & Hpin).
      cbn [trace PORTB emit write_OCR0A] in Htr, Hbits, Hpin.
      cbn [bind]. apply nth_error_In in Ev.
      destruct (_ >=? _); cbn [bind]; intros [= <-]; cbn [port].
      * exists ([RdWav (gumIndex s); WrOCR0A v; Busy t]
                ++ wrap_events (pitchRate s)).
        rewrite wrap_LEDs_trace, Htr, <- !app_assoc.
        split; [reflexivity|]. split; [|split].
        -- intros k Hk H5. rewrite wrap_LEDs_frame by assumption.
           now apply Hbits.
        -- rewrite wrap_LEDs_frame by (unfold not_led_pin; lia).
           rewrite Hpin, busy_ticks_app, wrap_events_ticks.
           cbn [busy_ticks fold_right]. now rewrite !Z.add_0_r.
        -- rewrite ocr_writes_app.
           destruct (wrap_events_silent (pitchRate s)) as (-> & _).
           cbn. constructor; [exact Ev | constructor].
      * exists [RdWav (gumIndex s); WrOCR0A v; Busy t].
        rewrite Htr, <- !app_assoc.
        split; [reflexivity|]. split; [|split].
        -- intros k _ H5. now apply Hbits.
        -- rewrite Hpin. cbn [busy_ticks fold_right]. now rewrite Z.add_0_r.
        -- cbn. constructor; [exact Ev | constructor].
    + unfold load_entry. destruct (nth_error tab _) as [e|]; [|discriminate].
      cbn [bind]. intros [= <-]. cbn [port PORTB xor_PORTB emit trace].
      eexists [_; _; _]. rewrite <- !app_assoc.
      split; [reflexivity|]. change LED_BLUE with (2 ^ 3). split; [|split].
      * intros k (_ & _ & H3) _. apply xor_other_pin; lia.
      * cbn [busy_ticks fold_right]. rewrite xor_other_pin by lia.
        now rewrite xorb_false_r.
      * constructor.
Qed.

(** X4: no run of the sequencer, on any pitch table and from any state,
    changes a bit of PORTB other than the three LED pins PB1, PB2 and PB3
    and the pin PB5 that every tick of [delaySomeTime] toggles (the PWM
    pin PB0 is left alone); PB5 ends inverted exactly when the run spent
    an odd number of ticks in its delays, as one sample of pitch 95 does;
    and every value written to OCR0A is an entry of the waveform table,
    hence a byte. *)
Theorem run_keeps_other_pins tab dfuel (n : nat) :
  forall s s',
    run tab dfuel n s = Done s' ->
    exists tr,
      trace (port s') = trace (port s) ++ tr
      /\ (forall k, not_led_pin k -> k <> 5 ->
            Z.testbit (PORTB (port s')) k = Z.testbit (PORTB (port s)) k)
      /\ Z.testbit (PORTB (port s')) 5
         = xorb (Z.testbit (PORTB (port s)) 5) (Z.odd (busy_ticks tr))
      /\ Forall (fun v => In v gumballWavTab /\ is_uint8 v) (ocr_writes tr).
Proof.
  induction n as [|n IH]; intros s s' Hrun.
  - injection Hrun as <-.
    exists []. rewrite app_nil_r. split; [reflexivity|].
    split; [reflexivity|].
    split; [now rewrite xorb_false_r | constructor].
  - cbn [run] in Hrun.
    destruct (step tab dfuel s) as [s1| |] eqn:Hstep; try discriminate.
    cbn [bind] in Hrun.
    destruct (step_frame tab dfuel s s1 Hstep)
      as (tr1 & Htr1 & Hpins1 & Hpin1 & Hw1).
    destruct (IH s1 s' Hrun) as (tr & Htr & Hpins & Hpin & Hw).
    exists (tr1 ++ tr). rewrite Htr, Htr1, <- app_assoc.
    split; [reflexivity|]. split; [|split].
    + intros k Hk H5. now rewrite Hpins, Hpins1.
    + rewrite Hpin, Hpin1, busy_ticks_app, Z.odd_add.
      now rewrite xorb_assoc.
    + rewrite ocr_writes_app. apply Forall_app. split; [|exact Hw].
      eapply Forall_impl; [|exact Hw1].
      intros v Hv. split; [exact Hv | now apply wav_bytes].
Qed.

Lemma run_keeps_other_pins_witness :
  exists s',
    run pitchTab 256 1 odd_pitch_state = Done s'
    /\ Z.testbit (PORTB (port odd_pitch_state)) 5 = false
    /\ Z.testbit (PORTB (port s')) 5 = true
    /\ exists tr,
        trace (port s') = trace (port odd_pitch_state) ++ tr
        /\ (forall k, not_led_pin k -> k <> 5 ->
              Z.testbit (PORTB (port s')) k
              = Z.testbit (PORTB (port odd_pitch_state)) k)
        /\ Z.testbit (PORTB (port s')) 5
           = xorb (Z.testbit (PORTB (port odd_pitch_state)) 5)
                  (Z.odd (busy_ticks tr))
        /\ Forall (fun v => In v gumballWavTab /\ is_uint8 v) (ocr_writes tr).
Proof.
  destruct (run pitchTab 256 1 odd_pitch_state) as [s'| |] eqn:Hrun;
    try (vm_compute in Hrun; discriminate).
  exists s'. split; [reflexivity|]. split; [reflexivity|].
  split; [vm_compute in Hrun; now injection Hrun as <- |].
  exact (run_keeps_other_pins pitchTab 256%nat 1%nat odd_pitch_state s' Hrun).
Defined.

(* ================================================================= *)
(** ** Time and LED toggles of one entry *)

Lemma sample_events_ticks g rate :
  busy_ticks (sample_events g rate) = rate * (SAMP + 1).
Proof.
  unfold sample_events, wrap_events. rewrite busy_ticks_app.
  destruct (g =? 91), (red_condition rate), (green_condition rate);
    cbn; lia.
Qed.

Lemma sample_run_ticks rate (l : list Z) :
  busy_ticks (flat_map (fun g => sample_events g rate) l)
  = Z.of_nat (length l) * (rate * (SAMP + 1)).
Proof.
  induction l as [|g l IH]; [reflexivity|].
  cbn [flat_map length]. rewrite busy_ticks_app, sample_events_ticks, IH. lia.
Qed.

Lemma sample_events_toggles m g rate :
  toggles m (sample_events g rate)
  = if g =? 91 then toggles m (wrap_events rate) else 0%nat.
Proof.
  unfold sample_events. rewrite toggles_app.
  now destruct (g =? 91).
Qed.

Lemma sample_run_toggles m rate (l : list Z) :
  toggles m (flat_map (fun g => sample_events g rate) l)
  = (wraps l * toggles m (wrap_events rate))%nat.
Proof.
  induction l as [|g l IH]; [reflexivity|].
  cbn [flat_map]. rewrite toggles_app, sample_events_toggles, IH.
  unfold wraps. cbn [filter]. destruct (g =? 91); cbn [length]; lia.
Qed.

(** The index passes 91 once for every 92 samples, counted from [g]. *)
Lemma wraps_count (k : nat) :
  forall g,
    0 <= g < gumballWavTabSize ->
    Z.of_nat (wraps (wave_indices g k)) = (g + Z.of_nat k) / gumballWavTabSize.
Proof.
  unfold gumballWavTabSize.
  induction k as [|k IH]; intros g Hg.
  - cbn. rewrite Z.add_0_r. symmetry. now apply Z.div_small.
  - rewrite wave_indices_S. unfold gumballWavTabSize.
    rewrite (Z.mod_small g) by assumption.
    unfold wraps in *. cbn [filter].
    destruct (Z.eqb_spec g 91) as [->|Hne].
    + cbn [length]. change ((91 + 1) mod 92) with 0.
      rewrite !Nat2Z.inj_succ, (IH 0) by lia.
      replace (91 + Z.succ (Z.of_nat k)) with (Z.of_nat k + 1 * 92) by lia.
      rewrite Z.div_add by lia. cbn [Z.add]. lia.
    + rewrite (Z.mod_small (g + 1)) by lia.
      rewrite IH by lia. f_equal. lia.
Qed.

(** X5: playing an entry with a nonzero pitch spends exactly
    [pitchLen * pitchRate * (SAMP + 1)] ticks in [delaySomeTime]: for a
    given duration a higher pitch value takes proportionally longer. *)
Theorem entry_play_time tab dfuel s e' :
  256 <= Z.of_nat dfuel ->
  pc s = AtEntry ->
  pitchRate s <> 0 ->
  is_uint8 (pitchRate s) ->
  is_uint16 (pitchLen s) ->
  0 <= gumIndex s < gumballWavTabSize ->
  0 <= pitchIndex s < 255 ->
  nth_error tab (Z.to_nat (pitchIndex s + 1)) = Some e' ->
  exists s' tr,
    run tab dfuel (S (S (Z.to_nat (pitchLen s)))) s = Done s'
    /\ trace (port s') = trace (port s) ++ tr
    /\ busy_ticks tr = pitchLen s * (pitchRate s * (SAMP + 1)).
Proof.
  intros Hf Hpc Hnz Hr Hlen Hg Hi He.
  destruct (play_entry tab dfuel Hf s e' Hpc Hnz Hr Hlen Hg Hi He)
    as (h & Hrun & Htr & _).
  eexists. eexists. split; [exact Hrun|]. cbn [port].
  split; [exact Htr|].
  rewrite busy_ticks_app, sample_run_ticks, wave_indices_length.
  unfold is_uint16 in Hlen. cbn. lia.
Qed.

Lemma entry_play_time_witness :
  exists s' tr,
    run pitchTab 256 282 entry_state = Done s'
    /\ trace (port s') = [] ++ tr
    /\ busy_ticks tr = 280 * (100 * (SAMP + 1)).
Proof.
  apply (entry_play_time pitchTab 256%nat entry_state (mkPitch 150 250));
    [ cbn; lia | reflexivity | cbn; congruence
    | unfold is_uint8; cbn; lia | unfold is_uint16; cbn; lia
    | unfold gumballWavTabSize; cbn; lia | cbn; lia | reflexivity ].
Defined.

(** X6: while an entry with a nonzero pitch is played from waveform index
    [g], the waveform index wraps [(g + pitchLen) / 92] times; the red LED
    is toggled that many times when the pitch passes the red test and
    never otherwise, and the same holds for the green LED and the green
    test. *)
Theorem entry_led_toggles tab dfuel s e' :
  256 <= Z.of_nat dfuel ->
  pc s = AtEntry ->
  pitchRate s <> 0 ->
  is_uint8 (pitchRate s) ->
  is_uint16 (pitchLen s) ->
  0 <= gumIndex s < gumballWavTabSize ->
  0 <= pitchIndex s < 255 ->
  nth_error tab (Z.to_nat (pitchIndex s + 1)) = Some e' ->
  exists s' tr,
    run tab dfuel (S (S (Z.to_nat (pitchLen s)))) s = Done s'
    /\ trace (port s') = trace (port s) ++ tr
    /\ gumIndex s' = (gumIndex s + pitchLen s) mod 92
    /\ Z.of_nat (toggles LED_RED tr)
       = (if red_condition (pitchRate s)
          then (gumIndex s + pitchLen s) / 92 else 0)
    /\ Z.of_nat (toggles LED_GREEN tr)
       = (if green_condition (pitchRate s)
          then (gumIndex s + pitchLen s) / 92 else 0).
Proof.
  intros Hf Hpc Hnz Hr Hlen Hg Hi He.
  destruct (play_entry tab dfuel Hf s e' Hpc Hnz Hr Hlen Hg Hi He)
    as (h & Hrun & Htr & _).
  eexists. eexists. split; [exact Hrun|]. cbn [port gumIndex].
  split; [exact Htr|]. split; [reflexivity|].
  rewrite !toggles_app, !sample_run_toggles.
  change (toggles LED_RED [RdPitch (pitchIndex s + 1);
                           RdLen (pitchIndex s + 1); XorPORTB LED_BLUE])
    with 0%nat.
  change (toggles LED_GREEN [RdPitch (pitchIndex s + 1);
                             RdLen (pitchIndex s + 1); XorPORTB LED_BLUE])
    with 0%nat.
  destruct (wrap_events_toggles (pitchRate s)) as (-> & -> & _).
  pose proof (wraps_count (Z.to_nat (pitchLen s)) (gumIndex s) Hg) as Hw.
  rewrite Z2Nat.id in Hw by apply Hlen.
  unfold gumballWavTabSize in Hw. rewrite <- Hw.
  destruct (red_condition (pitchRate s)), (green_condition (pitchRate s));
    split; lia.
Qed.

Lemma entry_led_toggles_witness :
  exists s' tr,
    run pitchTab 256 282 entry_state = Done s'
    /\ trace (port s') = [] ++ tr
    /\ gumIndex s' = (90 + 280) mod 92
    /\ Z.of_nat (toggles LED_RED tr)
       = (if red_condition 100 then (90 + 280) / 92 else 0)
    /\ Z.of_nat (toggles LED_GREEN tr)
       = (if green_condition 100 then (90 + 280) / 92 else 0).
Proof.
  apply (entry_led_toggles pitchTab 256%nat entry_state (mkPitch 150 250));
    [ cbn; lia | reflexivity | cbn; congruence
    | unfold is_uint8; cbn; lia | unfold is_uint16; cbn; lia
    | unfold gumballWavTabSize; cbn; lia | cbn; lia | reflexivity ].
Defined.

(* ================================================================= *)
(** ** The output of a whole pass *)

Lemma wave_indices_mod g k :
  wave_indices (g mod gumballWavTabSize) k = wave_indices g k.
Proof.
  unfold wave_indices. apply map_ext. intros t.
  now rewrite Zplus_mod_idemp_l.
Qed.

(** The waveform index runs on from one stretch of samples to the next. *)
Lemma wave_indices_add (a : nat) :
  forall g b,
    wave_indices g (a + b)
    = wave_indices g a
      ++ wave_indices ((g + Z.of_nat a) mod gumballWavTabSize) b.
Proof.
  induction a as [|a IH]; intros g b.
  - cbn [Nat.add Z.of_nat]. rewrite Z.add_0_r, wave_indices_mod. reflexivity.
  - cbn [Nat.add]. rewrite !wave_indices_S, IH. cbn [app]. f_equal. f_equal.
    rewrite Zplus_mod_idemp_l. do 2 f_equal. lia.
Qed.

Lemma total_duration_nonneg l :
  forallb playable l = true -> 0 <= total_duration l.
Proof.
  induction l as [|e l IH]; cbn [forallb total_duration fold_right];
    [lia|].
  rewrite andb_true_iff. intros (He & Hl).
  destruct (playable_spec e He) as (_ & _ & Hd). unfold is_uint16 in Hd.
  specialize (IH Hl). unfold total_duration in IH. lia.
Qed.

Section PassOutput.

Variables tab rest : list pitchElement.
Variable e0 : pitchElement.
Variable dfuel : nat.
Hypothesis dfuel_ok : 256 <= Z.of_nat dfuel.

(** The samples, the delay ticks and the blue pin after the turns of the
    middle loop for the entries [todo]. *)
Lemma play_entries_output (todo : list pitchElement) :
  forall played s,
    tab = played ++ todo ++ e0 :: rest ->
    forallb playable todo = true ->
    (length played + length todo <= 255)%nat ->
    pc s = AtEntry ->
    pitchIndex s = Z.of_nat (length played) ->
    pitchRate s = gumballPitch (hd e0 todo) ->
    pitchLen s = pitchDuration (hd e0 todo) ->
    0 <= gumIndex s < gumballWavTabSize ->
    exists s' tr,
      run tab dfuel (entries_steps todo) s = Done s'
      /\ pc s' = AtEntry
      /\ pitchRate s' = gumballPitch e0
      /\ trace (port s') = trace (port s) ++ tr
      /\ ocr_writes tr
         = map wav_at (wave_indices (gumIndex s)
                                    (Z.to_nat (total_duration todo)))
      /\ busy_ticks tr = entries_ticks todo
      /\ Z.testbit (PORTB (port s')) 3
         = xorb (Z.testbit (PORTB (port s)) 3) (Nat.odd (length todo)).
Proof.
  induction todo as [|e todo IH];
    intros played s Htab Hall Hlen Hpc Hi Hrate Hdur Hg.
  - exists s, []. cbn [entries_steps fold_right run length hd] in *.
    rewrite app_nil_r, xorb_false_r. repeat split; assumption.
  - cbn [hd forallb length] in *. apply andb_true_iff in Hall.
    destruct Hall as (Hplay & Hall).
    destruct (playable_spec e Hplay) as (Hnz & Hr & Hd).
    assert (nth_error tab (S (length played)) = Some (hd e0 todo)
            /\ tab = (played ++ [e]) ++ todo ++ e0 :: rest)
      as (Hnext & Htab').
    { rewrite Htab. split; [|now rewrite <- app_assoc].
      rewrite nth_error_app2 by lia.
      replace (S (length played) - length played)%nat with 1%nat by lia.
      now destruct todo. }
    rewrite <- Hrate in Hnz, Hr. rewrite <- Hdur in Hd.
    destruct (play_entry tab dfuel dfuel_ok s (hd e0 todo) Hpc Hnz Hr Hd Hg)
      as (h & Hrun & Htr & Hblue);
      [lia | rewrite Hi; rewrite <- Hnext; f_equal; lia |].
    edestruct (IH (played ++ [e])
                  (mkCPU AtEntry
                     ((gumIndex s + pitchLen s) mod gumballWavTabSize)
                     (pitchIndex s + 1) (gumballPitch (hd e0 todo))
                     (pitchDuration (hd e0 todo)) h))
      as (s' & tr' & Hrun' & Hpc' & Hrate' & Htr' & Ho' & Ht' & Hb');
      cbn [pc gumIndex pitchIndex pitchRate pitchLen port];
      try assumption; try reflexivity;
      rewrite ?length_app; cbn [length]; try lia.
    { apply Z.mod_pos_bound. unfold gumballWavTabSize. lia. }
    cbn [pc gumIndex pitchIndex pitchRate pitchLen port] in *.
    destruct (sample_run_projections (pitchRate s)
                (wave_indices (gumIndex s) (Z.to_nat (pitchLen s))))
      as (Ho & _).
    pose proof (total_duration_nonneg todo Hall) as Hnn.
    eexists s', _.
    cbn [entries_steps total_duration entries_ticks fold_right].
    fold (entries_steps todo). fold (total_duration todo).
    fold (entries_ticks todo).
    rewrite <- Hdur, <- Hrate, run_add, Hrun. cbn [bind].
    split; [exact Hrun'|]. split; [exact Hpc'|]. split; [exact Hrate'|].
    split; [rewrite Htr', Htr, <- !app_assoc; reflexivity|].
    unfold is_uint16 in Hd.
    split; [|split].
    + rewrite !ocr_writes_app, Ho, Ho'. cbn [ocr_writes flat_map app].
      rewrite Z2Nat.inj_add, wave_indices_add, map_app by lia.
      now rewrite Z2Nat.id by lia.
    + rewrite !busy_ticks_app, sample_run_ticks, wave_indices_length, Ht'.
      cbn. lia.
    + rewrite Hb', Hblue, Nat.odd_succ, <- Nat.negb_odd.
      now destruct (Z.testbit (PORTB (port s)) 3), (Nat.odd (length todo)).
Qed.

End PassOutput.

(** The output of one pass, shared by the theorems on passes. *)
Lemma pass_output tab pre e0 rest dfuel s0 :
  table_ok tab pre e0 rest ->
  256 <= Z.of_nat dfuel ->
  pc s0 = AtPass ->
  exists s' tr,
    run tab dfuel (S (entries_steps pre + 1)) s0 = Done s'
    /\ pc s' = AtPass
    /\ trace (port s') = trace (port s0) ++ tr
    /\ ocr_writes tr
       = map wav_at (wave_indices 0 (Z.to_nat (total_duration pre)))
    /\ busy_ticks tr = entries_ticks pre
    /\ Z.testbit (PORTB (port s')) 3
       = xorb (Z.testbit (PORTB (port s0)) 3) (Nat.odd (length pre)).
Proof.
  intros Hok Hf Hpc.
  destruct (pass_start tab pre rest e0 dfuel Hok _ eq_refl s0 Hpc)
    as (s1 & Hstep & (Hg1 & _ & Hat) & Hpc1 & Hz1 & Hi1 & Htr1).
  rewrite Hpc1 in Hat. destruct Hat as (e & He & Hrate & Hdur).
  rewrite Hi1 in He. change (Z.to_nat 0) with 0%nat in He.
  rewrite (first_entry tab pre e0 rest Hok) in He. injection He as <-.
  pose proof Hok as (Htab & Hall & Hzero & Hlen).
  destruct (play_entries_output tab rest e0 dfuel Hf pre [] s1)
    as (s2 & tr & Hrun & Hpc2 & Hrate2 & Htr2 & Ho & Ht & Hb);
    try assumption; cbn [length]; try lia.
  assert (PORTB (port s1) = PORTB (port s0)) as Hport1.
  { rewrite (step_pass tab dfuel s0 (hd e0 pre) Hpc
               (first_entry tab pre e0 rest Hok)) in Hstep.
    injection Hstep as <-. reflexivity. }
  eexists. exists ([RdPitch 0; RdLen 0] ++ tr).
  cbn [run]. rewrite Hstep. cbn [bind].
  rewrite run_add, Hrun. cbn [bind run].
  rewrite (step_entry tab dfuel s2 Hpc2), Hrate2, Hzero. cbn [bind Z.eqb].
  split; [reflexivity|]. cbn [pc port].
  split; [reflexivity|].
  split; [rewrite Htr2, Htr1, <- app_assoc; reflexivity|].
  rewrite ocr_writes_app, busy_ticks_app, Ho, Ht, Hb, Hz1, Hport1.
  repeat split.
Qed.

(** X7: the samples of a pass do not depend on where its entries begin
    and end.  A pass writes to OCR0A the waveform table over and over,
    from its first value, for the sum of the durations of the played
    entries: sample number [t] of the pass is entry [t mod 92] of the
    table, and the waveform index is not reset between entries. *)
Theorem pass_audio_is_cyclic_waveform tab pre e0 rest dfuel s0 :
  table_ok tab pre e0 rest ->
  256 <= Z.of_nat dfuel ->
  pc s0 = AtPass ->
  exists s' tr,
    run tab dfuel (S (entries_steps pre + 1)) s0 = Done s'
    /\ pc s' = AtPass
    /\ trace (port s') = trace (port s0) ++ tr
    /\ ocr_writes tr
       = map (fun t => nth (Z.to_nat (Z.of_nat t mod 92)) gumballWavTab 0)
             (seq 0 (Z.to_nat (total_duration pre))).
Proof.
  intros Hok Hf Hpc.
  destruct (pass_output tab pre e0 rest dfuel s0 Hok Hf Hpc)
    as (s' & tr & Hrun & Hpc' & Htr & Ho & _).
  exists s', tr. repeat split; try assumption.
  rewrite Ho. unfold wave_indices. rewrite map_map. reflexivity.
Qed.

Lemma pass_audio_is_cyclic_waveform_witness :
  exists s' tr,
    run demoTab 256 14 power_on = Done s'
    /\ pc s' = AtPass
    /\ trace (port s') = [] ++ tr
    /\ ocr_writes tr
       = map (fun t => nth (Z.to_nat (Z.of_nat t mod 92)) gumballWavTab 0)
             (seq 0 8).
Proof.
  apply (pass_audio_is_cyclic_waveform demoTab
           [mkPitch 100 5; mkPitch 50 3] (mkPitch 0 0) [] 256%nat power_on);
    [ repeat split; cbn; lia | cbn; lia | reflexivity ].
Defined.

(** X8: a pass spends in [delaySomeTime] the sum over its played entries
    of [duration * pitch * (SAMP + 1)] ticks, and it leaves the blue LED
    pin as it found it when the number of played entries is even and
    inverted when it is odd. *)
Theorem pass_time_and_blue_pin tab pre e0 rest dfuel s0 :
  table_ok tab pre e0 rest ->
  256 <= Z.of_nat dfuel ->
  pc s0 = AtPass ->
  exists s' tr,
    run tab dfuel (S (entries_steps pre + 1)) s0 = Done s'
    /\ pc s' = AtPass
    /\ trace (port s') = trace (port s0) ++ tr
    /\ busy_ticks tr = entries_ticks pre
    /\ Z.testbit (PORTB (port s')) 3
       = xorb (Z.testbit (PORTB (port s0)) 3) (Nat.odd (length pre)).
Proof.
  intros Hok Hf Hpc.
  destruct (pass_output tab pre e0 rest dfuel s0 Hok Hf Hpc)
    as (s' & tr & Hrun & Hpc' & Htr & _ & Ht & Hb).
  exists s', tr. repeat split; assumption.
Qed.

Lemma pass_time_and_blue_pin_witness :
  exists s' tr,
    run demoTab 256 14 power_on = Done s'
    /\ pc s' = AtPass
    /\ trace (port s') = [] ++ tr
    /\ busy_ticks tr = 5 * (100 * (SAMP + 1)) + (3 * (50 * (SAMP + 1)) + 0)
    /\ Z.testbit (PORTB (port s')) 3 = xorb (Z.testbit 0 3) (Nat.odd 2).
Proof.
  apply (pass_time_and_blue_pin demoTab
           [mkPitch 100 5; mkPitch 50 3] (mkPitch 0 0) [] 256%nat power_on);
    [ repeat split; cbn; lia | cbn; lia | reflexivity ].
Defined.

(** X9: with the tables of the firmware the sequencer never stops: the
    pitch table is well formed, with 72 played entries before the entry
    with pitch 0, the waveform table has the 92 byte values that
    [gumballWavTabSize] announces, and from power on every number of
    transitions is taken without a read outside a table and without a
    delay that does not return. *)
Theorem firmware_runs_forever dfuel (n : nat) :
  256 <= Z.of_nat dfuel ->
  table_ok pitchTab (firstn 72 pitchTab) (mkPitch 0 0) []
  /\ Z.of_nat (length gumballWavTab) = gumballWavTabSize
  /\ Forall is_uint8 gumballWavTab
  /\ exists s,
      run pitchTab dfuel n power_on = Done s
      /\ 0 <= gumIndex s < gumballWavTabSize
      /\ 0 <= pitchIndex s <= 72.
Proof.
  intros Hf.
  assert (table_ok pitchTab (firstn 72 pitchTab) (mkPitch 0 0) []) as Hok
      by (repeat split; cbn; lia).
  split; [exact Hok|]. split; [reflexivity|].
  split; [apply Forall_forall; exact wav_bytes|].
  destruct n as [|n].
  - exists power_on. split; [reflexivity|].
    unfold gumballWavTabSize. cbn. lia.
  - destruct (pass_start pitchTab _ _ _ dfuel Hok _ eq_refl power_on eq_refl)
      as (s1 & Hstep & Hinv1 & _).
    destruct (pass_inv_run pitchTab _ _ _ dfuel Hok Hf _ eq_refl n s1 Hinv1)
      as (s & Hrun & Hg & Hi & _).
    exists s. cbn [run]. rewrite Hstep. cbn [bind].
    split; [exact Hrun|]. split; [exact Hg | exact Hi].
Qed.

Lemma firmware_runs_forever_witness :
  table_ok pitchTab (firstn 72 pitchTab) (mkPitch 0 0) []
  /\ Z.of_nat (length gumballWavTab) = gumballWavTabSize
  /\ Forall is_uint8 gumballWavTab
  /\ exists s,
      run pitchTab 256 1000 power_on = Done s
      /\ 0 <= gumIndex s < gumballWavTabSize
      /\ 0 <= pitchIndex s <= 72.
Proof.
  apply (firmware_runs_forever 256%nat 1000%nat). cbn. lia.
Defined.

(* ================================================================= *)
(** ** More on [blink_LEDs] *)

Lemma blink_periods_ticks onTime offTime (n : nat) :
  busy_ticks (concat (repeat (blink_period onTime offTime) n))
  = Z.of_nat n * ((onTime + offTime) * (TENTH_MS + 1)).
Proof.
  induction n as [|n IH]; [reflexivity|].
  cbn [repeat concat]. rewrite busy_ticks_app, IH.
  unfold blink_period. cbn [busy_ticks fold_right]. lia.
Qed.

(** X10: [blink_LEDs] is a delay for [duration], cut down to whole
    periods.  When [onTime + offTime] is not zero and does not exceed the
    largest [unsigned long], and the number of periods fits the [int]
    counter, the call waits [(onTime + offTime) * (TENTH_MS + 1)] ticks
    for each of the [duration / (onTime + offTime)] periods; the units it
    waits are at most [duration] and fall short of it by less than one
    period. *)
Theorem blink_LEDs_delays_whole_periods fuel duration onTime offTime h :
  is_ulong duration -> is_ulong onTime -> is_ulong offTime ->
  0 < onTime + offTime <= ULONG_MAX ->
  duration / (onTime + offTime) <= INT_MAX ->
  duration / (onTime + offTime) < Z.of_nat fuel ->
  onTime < Z.of_nat fuel -> offTime < Z.of_nat fuel ->
  TENTH_MS + 1 < Z.of_nat fuel ->
  let units := duration / (onTime + offTime) * (onTime + offTime) in
  exists h' tr,
    blink_LEDs fuel duration onTime offTime h = Done h'
    /\ trace h' = trace h ++ tr
    /\ busy_ticks tr = units * (TENTH_MS + 1)
    /\ duration - (onTime + offTime) < units <= duration.
Proof.
  intros [Hd0 Hd] Hon Hoff Hsum Hq Hf Hfon Hfoff Hft units.
  assert (wrap32 (onTime + offTime) = onTime + offTime) as Hw
      by (apply wrap32_small; lia).
  assert (0 <= duration / (onTime + offTime)) as Hq0
      by (apply Z.div_pos; lia).
  destruct (blink_for_periods duration onTime offTime fuel _ _ eq_refl eq_refl
              Hon Hoff ltac:(lia) Hfon Hfoff Hft
              (Z.to_nat (duration / (onTime + offTime))) fuel 0 h)
    as (p & Hrun & _); rewrite ?Hw; try lia.
  eexists. eexists. split; [|split; [|split]].
  - exact Hrun.
  - reflexivity.
  - rewrite blink_periods_ticks, Z2Nat.id by assumption.
    unfold units. lia.
  - unfold units.
    pose proof (Z.mul_div_le duration (onTime + offTime) ltac:(lia)).
    pose proof (Z.mul_succ_div_gt duration (onTime + offTime) ltac:(lia)).
    lia.
Qed.

Lemma blink_LEDs_delays_whole_periods_witness :
  let units := 10 / (2 + 1) * (2 + 1) in
  exists h' tr,
    blink_LEDs 200 10 2 1 (mkIO 0 0 []) = Done h'
    /\ trace h' = [] ++ tr
    /\ busy_ticks tr = units * (TENTH_MS + 1)
    /\ 10 - (2 + 1) < units <= 10.
Proof.
  apply (blink_LEDs_delays_whole_periods 200%nat 10 2 1 (mkIO 0 0 []));
    unfold is_ulong, ULONG_MAX, INT_MAX, TENTH_MS; cbn; lia.
Defined.

Lemma leds_on_other_pin p k :
  not_led_pin k -> Z.testbit (Z.lor p LEDS_ON) k = Z.testbit p k.
Proof.
  intros (H1 & H2 & H3).
  change LEDS_ON with (Z.lor (Z.lor (2 ^ 1) (2 ^ 2)) (2 ^ 3)).
  rewrite !Z.lor_spec, !Z.pow2_bits_eqb by lia.
  destruct (Z.eqb_spec 1 k), (Z.eqb_spec 2 k), (Z.eqb_spec 3 k);
    try lia.
  now rewrite !orb_false_r.
Qed.

Lemma leds_off_other_pin p k :
  not_led_pin k -> 0 <= k < 8 ->
  Z.testbit (Z.land p LEDS_OFF) k = Z.testbit p k.
Proof.
  intros (H1 & H2 & H3) Hk. rewrite Z.land_spec.
  assert (k = 0 \/ k = 4 \/ k = 5 \/ k = 6 \/ k = 7)
    as [->|[->|[->|[->| ->]]]] by lia;
    apply andb_true_r.
Qed.

Lemma blink_for_frame fuel :
  forall dfuel i duration onTime offTime h h',
    blink_for fuel dfuel i duration onTime offTime h = Done h' ->
    exists tr,
      trace h' = trace h ++ tr
      /\ OCR0A h' = OCR0A h
      /\ (forall k, not_led_pin k -> k <> 5 -> 0 <= k < 8 ->
            Z.testbit (PORTB h') k = Z.testbit (PORTB h) k)
      /\ Z.testbit (PORTB h') 5
         = xorb (Z.testbit (PORTB h) 5) (Z.odd (busy_ticks tr)).
Proof.
  induction fuel as [|fuel IH];
    intros dfuel i duration onTime offTime h h' Hrun; [discriminate|].
  cbn [blink_for] in Hrun.
  destruct (_ =? 0); [discriminate|].
  destruct (_ <? _).
  2:{ injection Hrun as <-. exists []. rewrite app_nil_r.
      split; [reflexivity|]. split; [reflexivity|]. split; [reflexivity|].
      now rewrite xorb_false_r. }
  cbn [bind] in Hrun.
  destruct (busy dfuel onTime TENTH_MS _) as [h2| |] eqn:E2;
    [|discriminate ..].
  cbn [bind] in Hrun.
  destruct (busy dfuel offTime TENTH_MS _) as [h4| |] eqn:E4;
    [|discriminate ..].
  cbn [bind] in Hrun.
  destruct (_ >? _); [discriminate|].
  destruct (IH _ _ _ _ _ _ _ Hrun) as (tr & Htr & Ho & Hp & Hpin).
  destruct (busy_port _ _ _ _ _ E2) as (t2 & _ & Htr2 & Ho2 & Hp2 & Hpin2).
  destruct (busy_port _ _ _ _ _ E4) as (t4 & _ & Htr4 & Ho4 & Hp4 & Hpin4).
  cbn [PORTB OCR0A trace and_PORTB or_PORTB] in *.
  exists ([OrPORTB LEDS_ON; Busy t2; AndPORTB LEDS_OFF; Busy t4] ++ tr).
  split; [rewrite Htr, Htr4, Htr2, <- !app_assoc; reflexivity|].
  split; [congruence|]. split.
  - intros k Hk H5 Hk8.
    rewrite (Hp k Hk H5 Hk8), (Hp4 k H5), leds_off_other_pin, (Hp2 k H5),
      leds_on_other_pin by assumption.
    reflexivity.
  - rewrite Hpin, Hpin4, leds_off_other_pin, Hpin2, leds_on_other_pin
      by (unfold not_led_pin; lia).
    rewrite busy_ticks_app. cbn [busy_ticks fold_right].
    fold (busy_ticks tr).
    rewrite Z.add_0_r, <- Z.add_assoc, !Z.odd_add.
    now rewrite !xorb_assoc.
Qed.

(** X11: whatever its arguments, a call of [blink_LEDs] that returns has
    not written to OCR0A and has changed none of the bits 0, 4, 6 and 7 of
    PORTB: besides the three LED pins it acts on PB5 only, which the ticks
    of its delays toggle and which ends inverted exactly when their number
    is odd. *)
Theorem blink_LEDs_keeps_other_pins fuel duration onTime offTime h h' :
  blink_LEDs fuel duration onTime offTime h = Done h' ->
  exists tr,
    trace h' = trace h ++ tr
    /\ OCR0A h' = OCR0A h
    /\ (forall k, not_led_pin k -> k <> 5 -> 0 <= k < 8 ->
          Z.testbit (PORTB h') k = Z.testbit (PORTB h) k)
    /\ Z.testbit (PORTB h') 5
       = xorb (Z.testbit (PORTB h) 5) (Z.odd (busy_ticks tr)).
Proof. apply blink_for_frame. Qed.

Lemma blink_LEDs_keeps_other_pins_witness :
  exists h',
    blink_LEDs 200 10 2 1 (mkIO 0xFF 0x80 []) = Done h'
    /\ Z.testbit (PORTB h') 5 = false
    /\ exists tr,
        trace h' = [] ++ tr
        /\ OCR0A h' = 0x80
        /\ (forall k, not_led_pin k -> k <> 5 -> 0 <= k < 8 ->
              Z.testbit (PORTB h') k = Z.testbit 0xFF k)
        /\ Z.testbit (PORTB h') 5
           = xorb (Z.testbit 0xFF 5) (Z.odd (busy_ticks tr)).
Proof.
  destruct (blink_LEDs 200 10 2 1 (mkIO 0xFF 0x80 [])) as [h'| |] eqn:Hrun;
    try (vm_compute in Hrun; discriminate).
  exists h'. split; [reflexivity|].
  split; [vm_compute in Hrun; now injection Hrun as <- |].
  exact (blink_LEDs_keeps_other_pins 200%nat 10 2 1 _ h' Hrun).
Defined.

Lemma blink_LEDs_counter_overflow_witness :
  blink_LEDs (Z.to_nat 40000) 40000 1 0 (mkIO 0 0 []) = Fault SignedOverflow.
Proof.
  apply (blink_LEDs_counter_overflow (Z.to_nat 40000) 40000 1 0);
    unfold is_ulong, ULONG_MAX, INT_MAX; rewrite ?Z2Nat.id; cbn; lia.
Defined.

(* ================================================================= *)
(** ** When [delaySomeTime] returns *)

(** X13: for arguments that are [unsigned long]s, a call of
    [delaySomeTime] returns exactly when [units] is zero or [delayCount]
    is below the largest [unsigned long], and then after
    [units * (delayCount + 1)] ticks; in particular a call with
    [units = 0] returns at once, without a tick, even for the largest
    [delayCount]. *)
Theorem delaySomeTime_returns_iff units delayCount t :
  is_ulong units -> is_ulong delayCount ->
  delay_returns units delayCount t
  <-> (units = 0 \/ delayCount < ULONG_MAX) /\ t = units * (delayCount + 1).
Proof.
  intros Hu Hd. split.
  - intros Hret.
    destruct (Z.eq_dec units 0) as [->|Hnz].
    + split; [now left|].
      apply (delay_returns_unique 0 delayCount t 0 Hret).
      exists 1%nat. reflexivity.
    + destruct (Z.eq_dec delayCount ULONG_MAX) as [->|Hne].
      * destruct Hret as [fuel Hret]. unfold delaySomeTime in Hret.
        now rewrite delay_while_spins in Hret.
      * unfold is_ulong in *. split; [right; lia|].
        apply (delay_returns_unique units delayCount _ _ Hret).
        exists (S (Z.to_nat (Z.max units (delayCount + 1)))).
        apply delaySomeTime_closed_form; unfold is_ulong; lia.
  - intros ([-> |Hlt] & ->).
    + exists 1%nat. reflexivity.
    + unfold is_ulong in *.
      exists (S (Z.to_nat (Z.max units (delayCount + 1)))).
      apply delaySomeTime_closed_form; unfold is_ulong; lia.
Qed.

Lemma delaySomeTime_returns_iff_witness :
  delay_returns 0 ULONG_MAX 0
  <-> (0 = 0 \/ ULONG_MAX < ULONG_MAX) /\ 0 = 0 * (ULONG_MAX + 1).
Proof.
  apply (delaySomeTime_returns_iff 0 ULONG_MAX 0);
    unfold is_ulong, ULONG_MAX; lia.
Defined.
